(** * License server: a model of [license-server.js] and its properties

    The server keeps one JSON document on disk ([licenses.json]) holding the
    customer collection, and serves six routes.  Every handler is
    synchronous: it reads the whole document, works on the parsed copy and
    (on most paths) writes the whole document back.  The model below follows
    that shape: a handler is a function from the request, the clock and
    the disk to a reply and the new disk. *)

From Stdlib Require Import ZArith Lia Ascii String.
From stdpp Require Import base option list strings.

Local Open Scope Z_scope.

(** ** JavaScript values reaching the handlers *)

(** The primitive JSON values a body field can hold.  A field that is absent
    from the body ([undefined] after destructuring) is [None] at the type
    [option json].  Numbers are the integer-valued ones ([JNum z] is the
    double of value [z]); array and object field values are outside the
    model. *)
Inductive json : Type :=
  | JNull
  | JBool (b : bool)
  | JNum (z : Z)
  | JStr (s : string).

(** A Number value: NaN, an infinity, an integer-valued number [Fin z], or a
    number that is not an integer, [Frac m e] standing for the double
    [m * 2 ^ e] with [m] odd and [e] negative.  The two zeros are both
    [Fin 0]: the code never tells them apart. *)
Inductive number : Type :=
  | NaN
  | Inf (negative : bool)
  | Fin (z : Z)
  | Frac (m e : Z).

Module JS.

(** Truthiness of a string: only the empty string is falsy. *)
Definition truthy_str (s : string) : bool :=
  match s with EmptyString => false | _ => true end.

(** [!x] for an optional string ([undefined] is falsy). *)
Definition falsy_ostr (o : option string) : bool :=
  match o with
  | None => true
  | Some s => negb (truthy_str s)
  end.

(** Truthiness of a JSON primitive. *)
Definition truthy (v : json) : bool :=
  match v with
  | JNull => false
  | JBool b => b
  | JNum z => negb (z =? 0)
  | JStr s => truthy_str s
  end.

(** *** Rounding to a double

    [round64 n d], for [0 < d], is the Number value for the rational
    [n / d]: the nearest binary64 value, ties to the even significand,
    subnormals below [2 ^ -1022] and an infinity from [2 ^ 1024] on. *)
Definition round64 (n d : Z) : number :=
  if n =? 0 then Fin 0
  else
    let a := Z.abs n in
    let e0 := Z.log2 a - Z.log2 d in
    (* e = floor (log2 (a / d)) *)
    let e := if (if 0 <=? e0 then d * 2 ^ e0 <=? a else d <=? a * 2 ^ (- e0))
             then e0 else e0 - 1 in
    (* the significand is a / d / 2 ^ p, rounded *)
    let p := Z.max (e - 52) (-1074) in
    let num := if 0 <=? p then a else a * 2 ^ (- p) in
    let den := if 0 <=? p then d * 2 ^ p else d in
    let q := num / den in
    let r := num mod den in
    let mant := if (den <? 2 * r) || ((den =? 2 * r) && Z.odd q)
                then q + 1 else q in
    if mant =? 0 then Fin 0
    else if 0 <=? p then
      if 2 ^ 1024 <=? mant * 2 ^ p then Inf (n <? 0)
      else Fin (Z.sgn n * (mant * 2 ^ p))
    else
      let g := Z.gcd mant (2 ^ (- p)) in
      if 2 ^ (- p) =? g then Fin (Z.sgn n * (mant / g))
      else Frac (Z.sgn n * (mant / g)) (- Z.log2 (2 ^ (- p) / g)).

(** The integer part of a finite number (truncation towards zero, as
    [ToIntegerOrInfinity] does); [None] on NaN and the infinities. *)
Definition truncate (n : number) : option Z :=
  match n with
  | Fin z => Some z
  | Frac m e => Some (Z.quot m (2 ^ (- e)))
  | NaN | Inf _ => None
  end.

(** [n < 0]. *)
Definition lt0 (n : number) : bool :=
  match n with
  | Fin z => z <? 0
  | Frac m _ => m <? 0
  | Inf negative => negative
  | NaN => false
  end.

Definition negate (n : number) : number :=
  match n with
  | NaN => NaN
  | Inf s => Inf (negb s)
  | Fin z => Fin (- z)
  | Frac m e => Frac (- m) e
  end.

(** *** StringToNumber

    Strings are held as UTF-8 bytes.  The white space of
    StringNumericLiteral is WhiteSpace and LineTerminator: TAB, LF, VT, FF,
    CR, SP, and U+00A0, U+1680, U+2000 to U+200A, U+2028, U+2029, U+202F,
    U+205F, U+3000, U+FEFF in their two- and three-byte encodings. *)
Definition ws1 (a : ascii) : bool :=
  let n := nat_of_ascii a in
  ((n =? 9) || (n =? 10) || (n =? 11) || (n =? 12) || (n =? 13) || (n =? 32))%nat.

Definition ws2 (a b : ascii) : bool :=
  ((nat_of_ascii a =? 194) && (nat_of_ascii b =? 160))%nat.

Definition ws3 (a b c : ascii) : bool :=
  let x := nat_of_ascii a in
  let y := nat_of_ascii b in
  let z := nat_of_ascii c in
  (((x =? 225) && (y =? 154) && (z =? 128))
   || ((x =? 226) && (y =? 128)
       && (((128 <=? z) && (z <=? 138)) || (z =? 168) || (z =? 169) || (z =? 175)))
   || ((x =? 226) && (y =? 129) && (z =? 159))
   || ((x =? 227) && (y =? 128) && (z =? 128))
   || ((x =? 239) && (y =? 187) && (z =? 191)))%nat.

(** Leading white space dropped. *)
Fixpoint drop_ws (l : list ascii) : list ascii :=
  match l with
  | a :: r1 =>
      if ws1 a then drop_ws r1
      else match r1 with
           | b :: r2 =>
               if ws2 a b then drop_ws r2
               else match r2 with
                    | c :: r3 => if ws3 a b c then drop_ws r3 else l
                    | [] => l
                    end
           | [] => l
           end
  | [] => []
  end.

(** The same on the reversed string, whose bytes come last first. *)
Fixpoint drop_ws_rev (l : list ascii) : list ascii :=
  match l with
  | a :: r1 =>
      if ws1 a then drop_ws_rev r1
      else match r1 with
           | b :: r2 =>
               if ws2 b a then drop_ws_rev r2
               else match r2 with
                    | c :: r3 => if ws3 c b a then drop_ws_rev r3 else l
                    | [] => l
                    end
           | [] => l
           end
  | [] => []
  end.

Definition trim (l : list ascii) : list ascii :=
  rev (drop_ws_rev (rev (drop_ws l))).

(** The value of a digit in base 16, and within a base up to 16. *)
Definition hex_digit_of (c : ascii) : option Z :=
  let n := nat_of_ascii c in
  if ((48 <=? n) && (n <=? 57))%nat then Some (Z.of_nat n - 48)
  else if ((97 <=? n) && (n <=? 102))%nat then Some (Z.of_nat n - 87)
  else if ((65 <=? n) && (n <=? 70))%nat then Some (Z.of_nat n - 55)
  else None.

Definition digit_of (base : Z) (c : ascii) : option Z :=
  match hex_digit_of c with
  | Some d => if d <? base then Some d else None
  | None => None
  end.

(** Value of a run of digits, most significant first; [None] when a
    character is not a digit of the base. *)
Fixpoint digits_from (base acc : Z) (l : list ascii) : option Z :=
  match l with
  | [] => Some acc
  | c :: r =>
      match digit_of base c with
      | Some d => digits_from base (base * acc + d) r
      | None => None
      end
  end.

(** A non-empty run of decimal digits that is the whole of [l]. *)
Definition unsigned_int (l : list ascii) : option Z :=
  match l with
  | [] => None
  | _ :: _ => digits_from 10 0 l
  end.

(** The longest prefix of decimal digits, and what follows it. *)
Fixpoint span_digits (l : list ascii) : list ascii * list ascii :=
  match l with
  | c :: r =>
      match digit_of 10 c with
      | Some _ => let '(ds, rest) := span_digits r in (c :: ds, rest)
      | None => ([], l)
      end
  | [] => ([], [])
  end.

(** ExponentPart, when present, else 0; [None] when [l] is neither empty nor
    an exponent part. *)
Definition exponent_part (l : list ascii) : option Z :=
  match l with
  | [] => Some 0
  | c :: r =>
      if decide (c = "e"%char \/ c = "E"%char) then
        match r with
        | s :: r' =>
            if decide (s = "+"%char) then unsigned_int r'
            else if decide (s = "-"%char) then Z.opp <$> unsigned_int r'
            else unsigned_int r
        | [] => None
        end
      else None
  end.

(** StrUnsignedDecimalLiteral: [Infinity], or digits with an optional
    fraction and exponent, at least one digit before the exponent.  Its
    mathematical value is rounded to a double. *)
Definition unsigned_lit (l : list ascii) : number :=
  if decide (l = list_ascii_of_string "Infinity") then Inf false
  else
    let '(ip, r1) := span_digits l in
    let '(fp, r2) := match r1 with
                     | c :: r => if decide (c = "."%char) then span_digits r
                                 else ([], r1)
                     | [] => ([], r1)
                     end in
    match ip ++ fp, exponent_part r2 with
    | _ :: _, Some ex =>
        let N := default 0 (digits_from 10 0 (ip ++ fp)) in
        let k := ex - Z.of_nat (length fp) in
        if 0 <=? k then round64 (N * 10 ^ k) 1 else round64 N (10 ^ (- k))
    | _, _ => NaN
    end.

(** NonDecimalIntegerLiteral: [0x], [0o] or [0b] (either case) and digits of
    that base; [None] when [l] has no such prefix. *)
Definition radix_lit (l : list ascii) : option number :=
  match l with
  | z :: p :: r =>
      if decide (z = "0"%char) then
        let base :=
          if decide (p = "x"%char \/ p = "X"%char) then Some 16
          else if decide (p = "o"%char \/ p = "O"%char) then Some 8
          else if decide (p = "b"%char \/ p = "B"%char) then Some 2
          else None in
        match base with
        | Some b =>
            Some match r with
                 | [] => NaN
                 | _ :: _ => match digits_from b 0 r with
                             | Some v => round64 v 1
                             | None => NaN
                             end
                 end
        | None => None
        end
      else None
  | _ => None
  end.

(** StringToNumber: surrounding white space is dropped; the empty string is
    0; a radix literal takes no sign; a decimal literal takes an optional
    sign; anything else is NaN. *)
Definition StringToNumber (s : string) : number :=
  match trim (list_ascii_of_string s) with
  | [] => Fin 0
  | c :: r =>
      match radix_lit (c :: r) with
      | Some n => n
      | None =>
          if decide (c = "+"%char) then unsigned_lit r
          else if decide (c = "-"%char) then negate (unsigned_lit r)
          else unsigned_lit (c :: r)
      end
  end.

(** [Number(v)], that is ToNumber, on a JSON primitive. *)
Definition Number (v : json) : number :=
  match v with
  | JNull => Fin 0
  | JBool b => Fin (if b then 1 else 0)
  | JNum z => Fin z
  | JStr s => StringToNumber s
  end.

(** [n || dflt] on numbers: NaN and 0 are falsy. *)
Definition or_default (n : number) (dflt : Z) : number :=
  match n with
  | NaN => Fin dflt
  | Fin 0 => Fin dflt
  | _ => n
  end.

(** [len >= v] with [len] a number and [v] a stored JSON primitive: [v] is
    converted with ToNumber, and a comparison against NaN is false. *)
Definition ge_json (len : Z) (v : json) : bool :=
  match Number v with
  | NaN => false
  | Inf negative => negative
  | Fin z => z <=? len
  | Frac m e => m <=? len * 2 ^ (- e)
  end.

End JS.

(** ** Dates

    A [Date] is its time value: milliseconds since the epoch.  The text form
    written by [toISOString] and read back by [new Date(text)] denotes the
    same time value, so stored timestamps are kept as time values.  The
    server's local time zone is taken to be UTC, so that [getMonth] and
    [setMonth] work on the UTC fields. *)
Module Date.

Definition msPerDay : Z := 86400000.
Definition maxTime : Z := 8640000000000000.

Definition Day (t : Z) : Z := t / msPerDay.
Definition TimeWithinDay (t : Z) : Z := t mod msPerDay.

Definition DaysInYear (y : Z) : Z :=
  if negb (y mod 4 =? 0) then 365
  else if negb (y mod 100 =? 0) then 366
  else if negb (y mod 400 =? 0) then 365
  else 366.

Definition DayFromYear (y : Z) : Z :=
  365 * (y - 1970) + (y - 1969) / 4 - (y - 1901) / 100 + (y - 1601) / 400.

Definition TimeFromYear (y : Z) : Z := msPerDay * DayFromYear y.

(** The year a day number falls in, by 400-, 100-, 4- and 1-year cycles
    counted from 1 January 1601. *)
Definition YearFromDay (d : Z) : Z :=
  let n := d + 134774 in
  let n400 := n / 146097 in
  let r400 := n mod 146097 in
  let n100 := Z.min (r400 / 36524) 3 in
  let r100 := r400 - n100 * 36524 in
  let n4 := r100 / 1461 in
  let r4 := r100 mod 1461 in
  let n1 := Z.min (r4 / 365) 3 in
  1601 + 400 * n400 + 100 * n100 + 4 * n4 + n1.

Definition YearFromTime (t : Z) : Z := YearFromDay (Day t).

Definition leap (y : Z) : Z := if DaysInYear y =? 366 then 1 else 0.
Definition InLeapYear (t : Z) : Z := leap (YearFromTime t).

Definition DayWithinYear (t : Z) : Z := Day t - DayFromYear (YearFromTime t).

(** First day of month [m] (0 = January) within a year, [lp] being 1 in a
    leap year; month 12 gives the length of the year. *)
Definition monthStart (m lp : Z) : Z :=
  match m with
  | 0 => 0
  | 1 => 31
  | 2 => 59 + lp
  | 3 => 90 + lp
  | 4 => 120 + lp
  | 5 => 151 + lp
  | 6 => 181 + lp
  | 7 => 212 + lp
  | 8 => 243 + lp
  | 9 => 273 + lp
  | 10 => 304 + lp
  | 11 => 334 + lp
  | _ => 365 + lp
  end.

Definition monthOfDay (dwy lp : Z) : Z :=
  if dwy <? 31 then 0
  else if dwy <? 59 + lp then 1
  else if dwy <? 90 + lp then 2
  else if dwy <? 120 + lp then 3
  else if dwy <? 151 + lp then 4
  else if dwy <? 181 + lp then 5
  else if dwy <? 212 + lp then 6
  else if dwy <? 243 + lp then 7
  else if dwy <? 273 + lp then 8
  else if dwy <? 304 + lp then 9
  else if dwy <? 334 + lp then 10
  else 11.

Definition MonthFromTime (t : Z) : Z :=
  monthOfDay (DayWithinYear t) (InLeapYear t).

Definition DateFromTime (t : Z) : Z :=
  DayWithinYear t - monthStart (MonthFromTime t) (InLeapYear t) + 1.

(** Number of days of month [m] of year [y]. *)
Definition DaysInMonth (y m : Z) : Z :=
  monthStart (m + 1) (leap y) - monthStart m (leap y).

Definition MakeDay (year month date : Z) : Z :=
  let ym := year + month / 12 in
  let mn := month mod 12 in
  DayFromYear ym + monthStart mn (leap ym) + date - 1.

Definition MakeDate (day time : Z) : Z := day * msPerDay + time.

(** Year, month (0 = January) and day of the month of a time value. *)
Definition civil (t : Z) : Z * Z * Z :=
  (YearFromTime t, MonthFromTime t, DateFromTime t).

(** [TimeClip]: a time value out of range is NaN, here [None]. *)
Definition TimeClip (t : Z) : option Z :=
  if Z.abs t <=? maxTime then Some t else None.

(** [d.setMonth(m)] on the time value [t], in UTC. *)
Definition setMonth (t m : Z) : option Z :=
  TimeClip (MakeDate (MakeDay (YearFromTime t) m (DateFromTime t))
                     (TimeWithinDay t)).

End Date.

(** [addMonths(date, months)]: [d.setMonth(d.getMonth() + months)] and then
    [d.toISOString()], which throws a RangeError on an invalid date; [None]
    stands for that exception.  [date] is the time value of a valid date.  A
    month argument that is not finite makes the date invalid.  The sum with a
    month count that is not an integer is rounded to a double, and [setMonth]
    takes its integer part.  The sum of two integers is exact up to [2 ^ 53];
    beyond that the date is out of range whether the sum is rounded or not. *)
Definition addMonths (date : Z) (months : number) : option Z :=
  match months with
  | Fin m => Date.setMonth date (Date.MonthFromTime date + m)
  | Frac m e =>
      match JS.truncate
              (JS.round64 (Date.MonthFromTime date * 2 ^ (- e) + m)
                          (2 ^ (- e))) with
      | Some z => Date.setMonth date z
      | None => None
      end
  | NaN | Inf _ => None
  end.

(** [isExpired(iso)] with [Date.now()] read as [now]. *)
Definition isExpired (iso now : Z) : bool := iso <=? now.

(** ** The clock

    A handler reads the system clock, with [new Date()] or [Date.now()], up
    to three times while it serves a request, and the clock may advance
    between two readings.  A [clock] holds the successive readings of one
    request: [read1] is what the first call returns, [read2] the second and
    [read3] the third. *)
Record clock : Type := { read1 : Z; read2 : Z; read3 : Z }.

(** The clock of a request served within one millisecond. *)
Definition steady (t : Z) : clock := {| read1 := t; read2 := t; read3 := t |}.

(** ** The persisted document *)

Inductive license_status : Type := active | expired | banned.

Record activation : Type := {
  deviceId : string;
  activatedAt : Z;
  lastSeen : Z
}.

Record customer : Type := {
  id : string;
  name : string;
  email : string;
  licenseKey : string;
  status : license_status;
  maxDevices : json;
  createdAt : Z;
  expiresAt : Z;
  activations : list activation
}.

Definition set_lastSeen (t : Z) (a : activation) : activation :=
  {| deviceId := deviceId a; activatedAt := activatedAt a; lastSeen := t |}.

Definition set_status (s : license_status) (c : customer) : customer :=
  {| id := id c; name := name c; email := email c; licenseKey := licenseKey c;
     status := s; maxDevices := maxDevices c; createdAt := createdAt c;
     expiresAt := expiresAt c; activations := activations c |}.

Definition set_expiresAt (e : Z) (c : customer) : customer :=
  {| id := id c; name := name c; email := email c; licenseKey := licenseKey c;
     status := status c; maxDevices := maxDevices c; createdAt := createdAt c;
     expiresAt := e; activations := activations c |}.

Definition set_activations (l : list activation) (c : customer) : customer :=
  {| id := id c; name := name c; email := email c; licenseKey := licenseKey c;
     status := status c; maxDevices := maxDevices c; createdAt := createdAt c;
     expiresAt := expiresAt c; activations := l |}.

(** The data file: absent, present with text that [JSON.parse] rejects, or
    holding the document [{ customers: [...] }]. *)
Inductive disk : Type :=
  | Missing
  | Corrupt
  | Stored (customers : list customer).

(** [readData()]: any failure to read or parse gives the empty collection. *)
Definition readData (d : disk) : list customer :=
  match d with
  | Stored cs => cs
  | Missing | Corrupt => []
  end.

(** [writeData(obj)] replaces the file. *)
Definition writeData (cs : list customer) : disk := Stored cs.

(** ** Replies *)

Inductive reply : Type :=
  | ValidationError (error : string)            (* 400 *)
  | NotFound                                    (* 404, error 'not found' *)
  | InvalidLicense                              (* 404, status 'invalid' *)
  | Banned                                      (* 403, status 'banned' *)
  | Expired (expiresAt : Z)                     (* 403, status 'expired' *)
  | DeviceLimitExceeded (maxDevices : json)     (* 403, status 'limit_exceeded' *)
  | NotActivated                                (* 403, status 'not_activated' *)
  | Thrown                                      (* exception out of the handler *)
  | OkCustomer (c : customer)
  | OkCustomers (cs : list customer)
  | OkActivated (expiresAt : Z) (deviceId customerName : string)
  | OkVerified (st : license_status) (expiresAt : Z).

(** ** Handlers

    The admin routes run behind [requireAdmin]; a handler is modelled from
    the point where it is entered.  [now] is the clock of the request; each
    handler takes its readings in the order in which the source calls
    [new Date()] and [Date.now()]. *)

(** The strings drawn by [genId('cust')] and [genLicenseKey()]. *)
Record entropy : Type := { fresh_id : string; fresh_key : string }.

Record issue_body : Type := {
  b_name : option string;
  b_email : option string;
  b_months : option json;
  b_maxDevices : option json
}.

(** [POST /api/customers] *)
Definition issue (rnd : entropy) (b : issue_body) (now : clock) (d : disk)
  : reply * disk :=
  let months := default (JNum 6) (b_months b) in
  let maxDevices := default (JNum 2) (b_maxDevices b) in
  match b_name b, b_email b with
  | Some name, Some email =>
      if negb (JS.truthy_str name) || negb (JS.truthy_str email)
      then (ValidationError "name and email required", d)
      else
        let db := readData d in
        match addMonths (read2 now) (JS.or_default (JS.Number months) 6) with
        | None => (Thrown, d)
        | Some e =>
            let customer :=
              {| id := fresh_id rnd; name := name; email := email;
                 licenseKey := fresh_key rnd; status := active;
                 maxDevices := maxDevices; createdAt := read1 now;
                 expiresAt := e; activations := [] |} in
            (OkCustomer customer, writeData (db ++ [customer]))
        end
  | _, _ => (ValidationError "name and email required", d)
  end.

(** [GET /api/customers] *)
Definition list_customers (d : disk) : reply * disk :=
  (OkCustomers (readData d), d).

(** [PUT /api/customers/:id/renew] *)
Definition renew (cid : string) (months : option json) (now : clock) (d : disk)
  : reply * disk :=
  let months := default (JNum 3) months in
  let db := readData d in
  match list_find (λ x, id x = cid) db with
  | None => (NotFound, d)
  | Some (i, c) =>
      let baseDate := if isExpired (expiresAt c) (read1 now) then read2 now
                      else expiresAt c in
      match addMonths baseDate (JS.or_default (JS.Number months) 3) with
      | None => (Thrown, d)
      | Some e =>
          let c' := set_expiresAt e c in
          (OkCustomer c', writeData (<[i := c']> db))
      end
  end.

(** [PUT /api/customers/:id/ban] *)
Definition ban (cid : string) (banned_field : option json) (now : clock)
    (d : disk)
  : reply * disk :=
  let flag := default (JBool true) banned_field in
  let db := readData d in
  match list_find (λ x, id x = cid) db with
  | None => (NotFound, d)
  | Some (i, c) =>
      let c' :=
        set_status (if JS.truthy flag then banned
                    else if isExpired (expiresAt c) (read1 now) then expired
                    else active) c in
      (OkCustomer c', writeData (<[i := c']> db))
  end.

(** [POST /api/licenses/activate] *)
Definition activate (key_field dev_field : option string) (now : clock)
    (d : disk)
  : reply * disk :=
  match key_field, dev_field with
  | Some key, Some dev =>
      if negb (JS.truthy_str key) || negb (JS.truthy_str dev)
      then (ValidationError "licenseKey and deviceId required", d)
      else
        let db := readData d in
        match list_find (λ x, licenseKey x = key) db with
        | None => (InvalidLicense, d)
        | Some (i, c) =>
            match status c with
            | banned => (Banned, d)
            | _ =>
                if isExpired (expiresAt c) (read1 now) then
                  (Expired (expiresAt c),
                   writeData (<[i := set_status expired c]> db))
                else
                  match list_find (λ a, deviceId a = dev) (activations c) with
                  | None =>
                      if JS.ge_json (Z.of_nat (length (activations c)))
                                    (maxDevices c)
                      then (DeviceLimitExceeded (maxDevices c), d)
                      else
                        let a := {| deviceId := dev; activatedAt := read2 now;
                                    lastSeen := read3 now |} in
                        let c' := set_status active
                                    (set_activations (activations c ++ [a]) c) in
                        (OkActivated (expiresAt c) dev (name c),
                         writeData (<[i := c']> db))
                  | Some (j, existing) =>
                      let acts := <[j := set_lastSeen (read2 now) existing]>
                                    (activations c) in
                      let c' := set_status active (set_activations acts c) in
                      (OkActivated (expiresAt c) dev (name c),
                       writeData (<[i := c']> db))
                  end
            end
        end
  | _, _ => (ValidationError "licenseKey and deviceId required", d)
  end.

(** [GET /api/licenses/verify] *)
Definition verify (key_field dev_field : option string) (now : clock)
    (d : disk)
  : reply * disk :=
  match key_field, dev_field with
  | Some key, Some dev =>
      if negb (JS.truthy_str key) || negb (JS.truthy_str dev)
      then (ValidationError "key and deviceId required", d)
      else
        let db := readData d in
        match list_find (λ x, licenseKey x = key) db with
        | None => (InvalidLicense, d)
        | Some (i, c) =>
            match list_find (λ a, deviceId a = dev) (activations c) with
            | None => (NotActivated, d)
            | Some (j, a) =>
                let acts := <[j := set_lastSeen (read1 now) a]> (activations c) in
                let st :=
                  match status c with
                  | banned => banned
                  | _ => if isExpired (expiresAt c) (read2 now) then expired
                         else active
                  end in
                let c' := set_status st (set_activations acts c) in
                (OkVerified st (expiresAt c), writeData (<[i := c']> db))
            end
        end
  | _, _ => (ValidationError "key and deviceId required", d)
  end.

(** ** Routing *)

Inductive request : Type :=
  | Issue (rnd : entropy) (body : issue_body)
  | ListCustomers
  | Renew (cid : string) (months : option json)
  | Ban (cid : string) (banned_field : option json)
  | Activate (key_field dev_field : option string)
  | Verify (key_field dev_field : option string).

Definition handle (r : request) (now : clock) (d : disk) : reply * disk :=
  match r with
  | Issue rnd body => issue rnd body now d
  | ListCustomers => list_customers d
  | Renew cid months => renew cid months now d
  | Ban cid flag => ban cid flag now d
  | Activate k dv => activate k dv now d
  | Verify k dv => verify k dv now d
  end.

(** Serving a sequence of requests, each with its own clock. *)
Fixpoint serve (rs : list (request * clock)) (d : disk) : list reply * disk :=
  match rs with
  | [] => ([], d)
  | (r, now) :: rest =>
      let '(rep, d1) := handle r now d in
      let '(reps, d2) := serve rest d1 in
      (rep :: reps, d2)
  end.

(** ** Notions used to state the properties *)

(** The expiry policy as the specification words it: calendar-month
    arithmetic in which a day of the month that the target month lacks is
    clamped to the last day of that month.  It is compared with [addMonths]
    below. *)
Definition addInterval_clamped (t m : Z) : Z :=
  let y := Date.YearFromTime t + (Date.MonthFromTime t + m) / 12 in
  let mn := (Date.MonthFromTime t + m) mod 12 in
  let dt := Z.min (Date.DateFromTime t) (Date.DaysInMonth y mn) in
  Date.MakeDate (Date.MakeDay y mn dt) (Date.TimeWithinDay t).

(** The replies that report a failed transition. *)
Definition failed (r : reply) : bool :=
  match r with
  | ValidationError _ | NotFound | InvalidLicense | Banned | Expired _
  | DeviceLimitExceeded _ | NotActivated => true
  | Thrown | OkCustomer _ | OkCustomers _ | OkActivated _ _ _
  | OkVerified _ _ => false
  end.

(** [unbans r d k]: the request is a ban request with a falsy [banned]
    field whose lookup by id lands on the record at index [k]. *)
Definition unbans (r : request) (d : disk) (k : nat) : bool :=
  match r with
  | Ban cid f =>
      negb (JS.truthy (default (JBool true) f))
      && bool_decide (fst <$> list_find (λ x, id x = cid) (readData d) = Some k)
  | _ => false
  end.

(** The status the expiry test gives. *)
Definition status_by_expiry (c : customer) (now : Z) : license_status :=
  if isExpired (expiresAt c) now then expired else active.

(** Activation requests for one key, from a list of devices paired with the
    clock of the request of each. *)
Definition activations_for (key : string) (ds : list (string * clock))
  : list (request * clock) :=
  map (λ p, (Activate (Some key) (Some p.1), p.2)) ds.

(** The entry a first activation appends: [activatedAt] is the second
    reading of the request's clock (the first goes to the expiry test) and
    [lastSeen] the third. *)
Definition first_activation (p : string * clock) : activation :=
  {| deviceId := p.1; activatedAt := read2 p.2; lastSeen := read3 p.2 |}.

Definition devices (c : customer) : list string := deviceId <$> activations c.

(** ** Sample data

    A license issued on 14 November 2023 for one month and one device, the
    same license with its device activated, then banned, and a second
    customer's license for two devices. *)
Definition sample_key : string := "LIC-AB12-CD34-EF56-GH78".

Definition fresh_license : customer :=
  {| id := "cust_k3x9q2m1ab4z"; name := "A"; email := "a@x.com";
     licenseKey := sample_key; status := active; maxDevices := JNum 1;
     createdAt := 1700000000000; expiresAt := 1702592000000;
     activations := [] |}.

Definition used_license : customer :=
  set_activations
    [{| deviceId := "dev1"; activatedAt := 1700000100000;
        lastSeen := 1700000100000 |}] fresh_license.

Definition banned_license : customer := set_status banned used_license.

Definition team_license : customer :=
  {| id := "cust_p7w2r5t8cd1y"; name := "B"; email := "b@x.com";
     licenseKey := "LIC-ZZ99-YY88-XX77-WW66"; status := active;
     maxDevices := JNum 2; createdAt := 1700000000000;
     expiresAt := 1702592000000; activations := [] |}.

(** A license whose limit was given as the text [2.5], and four devices
    asking for it one after the other. *)
Definition shared_license : customer :=
  {| id := "cust_m4n8b6v2ef3x"; name := "C"; email := "c@x.com";
     licenseKey := "LIC-QQ11-RR22-SS33-TT44"; status := active;
     maxDevices := JStr "2.5"; createdAt := 1700000000000;
     expiresAt := 1702592000000; activations := [] |}.

Definition four_devices : list (request * clock) :=
  activations_for "LIC-QQ11-RR22-SS33-TT44"
    [("d1"%string, steady 1700000100000); ("d2"%string, steady 1700000200000);
     ("d3"%string, steady 1700000300000); ("d4"%string, steady 1700000400000)].

(** ** The remaining parts of the server *)

(** The start of the server: when the data file does not exist it is created
    holding the empty collection; an existing file is left as it is. *)
Definition startup (d : disk) : disk :=
  match d with
  | Missing => writeData []
  | Corrupt | Stored _ => d
  end.

Module Gen.

(** [toUpperCase] on the characters [Math.random().toString(36)] produces:
    digits, lower-case letters and the point. *)
Definition toUpperCase (c : ascii) : ascii :=
  let n := nat_of_ascii c in
  if ((97 <=? n) && (n <=? 122))%nat then ascii_of_nat (n - 32) else c.

(** The complement of the class [[^A-Z0-9]]. *)
Definition is_AZ09 (c : ascii) : bool :=
  let n := nat_of_ascii c in
  (((48 <=? n) && (n <=? 57)) || ((65 <=? n) && (n <=? 90)))%nat.

(** [s.slice(i, j)] for [0 <= i <= j]. *)
Definition slice (i j : nat) (l : list ascii) : list ascii :=
  take (j - i) (drop i l).

(** [s.padEnd(n, c)] *)
Definition padEnd (n : nat) (c : ascii) (l : list ascii) : list ascii :=
  l ++ replicate (n - length l) c.

(** [block()], [r] being the text of [Math.random().toString(36)]. *)
Definition block (r : string) : list ascii :=
  padEnd 4 "X"%char
    (slice 0 4 (List.filter is_AZ09 (map toUpperCase (list_ascii_of_string r)))).

(** [genLicenseKey()], from the texts of its four random draws. *)
Definition genLicenseKey (r1 r2 r3 r4 : string) : string :=
  string_of_list_ascii
    (list_ascii_of_string "LIC-" ++ block r1 ++ ["-"%char] ++ block r2
       ++ ["-"%char] ++ block r3 ++ ["-"%char] ++ block r4).

(** [genId(prefix)], from the texts of its two random draws. *)
Definition genId (prefix r1 r2 : string) : string :=
  string_of_list_ascii
    (list_ascii_of_string prefix ++ ["_"%char]
       ++ slice 2 10 (list_ascii_of_string r1)
       ++ slice 2 6 (list_ascii_of_string r2)).

(** The six random texts one Issue request consumes, in the order drawn. *)
Record draws : Type := {
  id_1 : string; id_2 : string;
  key_1 : string; key_2 : string; key_3 : string; key_4 : string
}.

Definition draw (r : draws) : entropy :=
  {| fresh_id := genId "cust" (id_1 r) (id_2 r);
     fresh_key := genLicenseKey (key_1 r) (key_2 r) (key_3 r) (key_4 r) |}.

(** The shape of a license key: [LIC-] and four blocks of four characters
    among [A-Z0-9], separated by dashes. *)
Definition is_block (l : list ascii) : bool :=
  (length l =? 4)%nat && forallb is_AZ09 l.

Definition key_format (k : string) : bool :=
  let l := list_ascii_of_string k in
  bool_decide (take 4 l = list_ascii_of_string "LIC-")
  && is_block (take 4 (drop 4 l))
  && bool_decide (take 1 (drop 8 l) = ["-"%char])
  && is_block (take 4 (drop 9 l))
  && bool_decide (take 1 (drop 13 l) = ["-"%char])
  && is_block (take 4 (drop 14 l))
  && bool_decide (take 1 (drop 18 l) = ["-"%char])
  && is_block (take 4 (drop 19 l))
  && (length l =? 23)%nat.

End Gen.

Module Admin.

(** [process.env.ADMIN_PASSWORD || 'admin123'] *)
Definition ADMIN_PASSWORD (env : option string) : string :=
  match env with
  | Some s => if JS.truthy_str s then s else "admin123"
  | None => "admin123"
  end.

(** What a route behind the middleware answers: 401, or the handler's
    reply. *)
Inductive guarded : Type :=
  | Unauthorized
  | Passed (r : reply).

(** [requireAdmin]: [hdr] is the [x-admin-auth] header, [next] the handler. *)
Definition requireAdmin (env hdr : option string)
    (next : disk -> reply * disk) (d : disk) : guarded * disk :=
  match hdr with
  | Some h =>
      if negb (JS.truthy_str h) || negb (bool_decide (h = ADMIN_PASSWORD env))
      then (Unauthorized, d)
      else let '(r, d') := next d in (Passed r, d')
  | None => (Unauthorized, d)
  end.

(** The routes registered with [requireAdmin]. *)
Definition behind_admin (r : request) : bool :=
  match r with
  | Activate _ _ | Verify _ _ => false
  | Issue _ _ | ListCustomers | Renew _ _ | Ban _ _ => true
  end.

(** The routes as registered on [app]: the four customer routes go through
    [requireAdmin], the two license routes do not. *)
Definition app (env hdr : option string) (r : request) (now : clock) (d : disk)
  : guarded * disk :=
  match r with
  | Activate _ _ | Verify _ _ =>
      let '(rep, d') := handle r now d in (Passed rep, d')
  | Issue _ _ | ListCustomers | Renew _ _ | Ban _ _ =>
      requireAdmin env hdr (handle r now) d
  end.

End Admin.

(** ** Notions used to state the further properties *)

(** The fields no route writes. *)
Definition same_identity (c c' : customer) : Prop :=
  id c' = id c /\ name c' = name c /\ email c' = email c /\
  licenseKey c' = licenseKey c /\ maxDevices c' = maxDevices c /\
  createdAt c' = createdAt c.

(** The activations of [c'] extend those of [c]: same devices and
    activation times in the same order, possibly followed by new ones. *)
Definition extends_activations (c c' : customer) : Prop :=
  devices c `prefix_of` devices c' /\
  (activatedAt <$> activations c) `prefix_of` (activatedAt <$> activations c').

(** The number of activations is within the limit the comparison of Activate
    reads off [maxDevices]: the number it converts to, rounded up when it is
    not an integer; a negative limit admits no device, NaN and +Infinity
    bound nothing. *)
Definition within_limit (c : customer) : Prop :=
  match JS.Number (maxDevices c) with
  | Fin n => Z.of_nat (length (activations c)) <= Z.max 0 n
  | Frac m e =>
      Z.of_nat (length (activations c)) <= Z.max 0 (- (- m / 2 ^ (- e)))
  | Inf true => activations c = []
  | Inf false | NaN => True
  end.

(** The ways a handler rewrites a stored record. *)
Inductive change : customer -> customer -> Prop :=
  | change_expiry e c : change c (set_expiresAt e c)
  | change_status s c : change c (set_status s c)
  | change_touch s j a t c :
      activations c !! j = Some a ->
      change c (set_status s
                  (set_activations (<[j := set_lastSeen t a]> (activations c)) c))
  | change_push s dev t c :
      dev ∉ devices c ->
      JS.ge_json (Z.of_nat (length (activations c))) (maxDevices c) = false ->
      change c (set_status s
                  (set_activations
                     (activations c ++ [first_activation (dev, t)]) c)).

(** The date [addMonths] builds before it is checked for validity. *)
Definition unclipped (t m : Z) : Z :=
  Date.MakeDate
    (Date.MakeDay (Date.YearFromTime t) (Date.MonthFromTime t + m)
                  (Date.DateFromTime t))
    (Date.TimeWithinDay t).

(** The status a license route arrives at for a record: [banned] stays,
    otherwise the expiry test decides. *)
Definition decided_status (c : customer) (now : Z) : license_status :=
  match status c with
  | banned => banned
  | active | expired => status_by_expiry c now
  end.

(** A ban request whose [banned] field is truthy or absent. *)
Definition bans (r : request) : bool :=
  match r with
  | Ban _ f => JS.truthy (default (JBool true) f)
  | _ => false
  end.

Definition is_renew (r : request) : bool :=
  match r with Renew _ _ => true | _ => false end.

Definition is_ban (r : request) : bool :=
  match r with Ban _ _ => true | _ => false end.

(** An Issue request for one device and one month, with the six random
    texts it draws, and a day in the life of the server: the license is
    issued, two devices ask for it, it is renewed, verified and banned. *)
Definition sample_draws : Gen.draws :=
  {| Gen.id_1 := "0.k3x9q2m1abzz"; Gen.id_2 := "0.4z7pqr";
     Gen.key_1 := "0.ab12xy"; Gen.key_2 := "0.cd34"; Gen.key_3 := "0.e";
     Gen.key_4 := "0" |}.

Definition sample_issue : request :=
  Issue (Gen.draw sample_draws)
        {| b_name := Some "A"%string; b_email := Some "a@x.com"%string;
           b_months := Some (JNum 1); b_maxDevices := Some (JNum 1) |}.

Definition sample_day : list (request * clock) :=
  [(sample_issue, steady 1700000000000);
   (Activate (Some "LIC-0AB1-0CD3-0EXX-0XXX"%string) (Some "dev1"%string),
    {| read1 := 1700000100000; read2 := 1700000100000;
       read3 := 1700000100001 |});
   (Activate (Some "LIC-0AB1-0CD3-0EXX-0XXX"%string) (Some "dev2"%string),
    steady 1700000200000);
   (Renew "cust_k3x9q2m14z7p" None, steady 1700000300000);
   (Verify (Some "LIC-0AB1-0CD3-0EXX-0XXX"%string) (Some "dev1"%string),
    steady 1700000400000);
   (Ban "cust_k3x9q2m14z7p" None, steady 1700000500000)].

(** * Properties *)

(** ** Calendar arithmetic *)
Module DateFacts.
Import Date.

Lemma DayFromYear_succ y : DayFromYear (y + 1) = DayFromYear y + DaysInYear y.
Proof.
  unfold DayFromYear, DaysInYear.
  repeat match goal with |- context [?a =? ?b] => destruct (Z.eqb_spec a b); cbn [negb] end;
  Z.div_mod_to_equations; lia.
Qed.

Lemma DaysInYear_cases y : DaysInYear y = 365 + leap y /\ (leap y = 0 \/ leap y = 1).
Proof.
  unfold leap, DaysInYear.
  repeat match goal with |- context [negb (?a =? ?b)] => destruct (Z.eqb_spec a b); cbn [negb] end;
  cbn; lia.
Qed.

Lemma DayFromYear_mono y1 y2 : y1 <= y2 -> DayFromYear y1 <= DayFromYear y2.
Proof. unfold DayFromYear. intros. Z.div_mod_to_equations. lia. Qed.

Lemma DayFromYear_lt y1 y2 : y1 < y2 -> DayFromYear y1 + 365 <= DayFromYear y2.
Proof. unfold DayFromYear. intros. Z.div_mod_to_equations. lia. Qed.

Lemma YearFromDay_spec d :
  DayFromYear (YearFromDay d) <= d < DayFromYear (YearFromDay d + 1).
Proof.
  unfold YearFromDay, DayFromYear. cbv zeta.
  Z.div_mod_to_equations; lia.
Qed.

Lemma YearFromDay_unique d y :
  DayFromYear y <= d < DayFromYear (y + 1) -> YearFromDay d = y.
Proof.
  intros H. pose proof (YearFromDay_spec d) as S.
  destruct (Z.lt_trichotomy (YearFromDay d) y) as [L | [E | G]]; [| exact E |].
  - pose proof (DayFromYear_mono (YearFromDay d + 1) y ltac:(lia)). lia.
  - pose proof (DayFromYear_mono (y + 1) (YearFromDay d) ltac:(lia)). lia.
Qed.

(* Unfolds [monthStart] at literal months, leaving the sums for [lia]. *)
Ltac months :=
  repeat match goal with
    | |- context [monthStart (?a + ?b) ?lp] =>
        let v := eval vm_compute in (a + b) in
        change (monthStart (a + b) lp) with (monthStart v lp)
    end;
  cbv [monthStart DaysInMonth].

Ltac month_cases m :=
  let H := fresh in
  assert (H : m = 0 \/ m = 1 \/ m = 2 \/ m = 3 \/ m = 4 \/ m = 5 \/ m = 6 \/
              m = 7 \/ m = 8 \/ m = 9 \/ m = 10 \/ m = 11) by lia;
  repeat (destruct H as [H | H]; [subst m |]); [.. | subst m].

Lemma Day_MakeDate day tod :
  0 <= tod < msPerDay -> Day (MakeDate day tod) = day.
Proof.
  unfold Day, MakeDate, msPerDay. intros. Z.div_mod_to_equations. lia.
Qed.

Lemma TimeWithinDay_MakeDate day tod :
  0 <= tod < msPerDay -> TimeWithinDay (MakeDate day tod) = tod.
Proof.
  unfold TimeWithinDay, MakeDate, msPerDay. intros. Z.div_mod_to_equations. lia.
Qed.

Lemma TimeWithinDay_range t : 0 <= TimeWithinDay t < msPerDay.
Proof. unfold TimeWithinDay, msPerDay. Z.div_mod_to_equations. lia. Qed.

Lemma MakeDate_Day t : MakeDate (Day t) (TimeWithinDay t) = t.
Proof.
  unfold MakeDate, Day, TimeWithinDay, msPerDay. Z.div_mod_to_equations. lia.
Qed.

Lemma monthOfDay_range dwy lp : 0 <= monthOfDay dwy lp <= 11.
Proof.
  unfold monthOfDay.
  repeat match goal with |- context [?a <? ?b] => destruct (Z.ltb_spec a b) end; lia.
Qed.

Lemma monthOfDay_spec dwy lp :
  0 <= dwy < 365 + lp ->
  monthStart (monthOfDay dwy lp) lp <= dwy
    < monthStart (monthOfDay dwy lp + 1) lp.
Proof.
  unfold monthOfDay. intros.
  repeat match goal with |- context [?a <? ?b] => destruct (Z.ltb_spec a b) end;
    months; lia.
Qed.

Lemma monthOfDay_unique dwy lp m :
  0 <= m <= 11 -> 0 <= lp <= 1 ->
  monthStart m lp <= dwy < monthStart (m + 1) lp ->
  monthOfDay dwy lp = m.
Proof.
  intros Hm Hlp. month_cases m; months; intros; unfold monthOfDay;
  repeat match goal with |- context [?a <? ?b] => destruct (Z.ltb_spec a b) end;
    lia.
Qed.

Lemma monthStart_mono m1 m2 lp :
  0 <= m1 <= m2 -> m2 <= 12 -> 0 <= lp <= 1 ->
  monthStart m1 lp <= monthStart m2 lp.
Proof.
  intros. assert (m1 = 12 \/ m1 <= 11) as [-> |] by lia.
  { replace m2 with 12 by lia. lia. }
  assert (m2 = 12 \/ m2 <= 11) as [-> |] by lia.
  - month_cases m1; months; lia.
  - month_cases m1; month_cases m2; months; lia.
Qed.

Lemma monthStart_bounds m lp :
  0 <= m <= 11 -> 0 <= lp <= 1 ->
  0 <= monthStart m lp /\ monthStart (m + 1) lp <= 365 + lp.
Proof. intros. month_cases m; months; lia. Qed.

Lemma DaysInMonth_range y m : 0 <= m <= 11 -> 28 <= DaysInMonth y m <= 31.
Proof.
  intros. unfold DaysInMonth. destruct (DaysInYear_cases y) as [_ Hl].
  month_cases m; months; lia.
Qed.

Lemma DayWithinYear_range t :
  0 <= DayWithinYear t < 365 + InLeapYear t.
Proof.
  unfold DayWithinYear, InLeapYear, YearFromTime.
  pose proof (YearFromDay_spec (Day t)) as S.
  rewrite DayFromYear_succ in S.
  destruct (DaysInYear_cases (YearFromDay (Day t))). lia.
Qed.

Lemma MonthFromTime_range t : 0 <= MonthFromTime t <= 11.
Proof. apply monthOfDay_range. Qed.

Lemma DateFromTime_range t :
  1 <= DateFromTime t <= DaysInMonth (YearFromTime t) (MonthFromTime t).
Proof.
  unfold DateFromTime, DaysInMonth, MonthFromTime.
  pose proof (monthOfDay_spec _ _ (DayWithinYear_range t)).
  unfold InLeapYear in *. lia.
Qed.

(** The day number of a time value is rebuilt from its civil fields. *)
Lemma Day_civil t :
  Day t = MakeDay (YearFromTime t) (MonthFromTime t) (DateFromTime t).
Proof.
  unfold MakeDay. pose proof (MonthFromTime_range t) as Hm.
  rewrite Z.div_small, Z.mod_small, Z.add_0_r by lia.
  unfold DateFromTime, DayWithinYear, InLeapYear. lia.
Qed.

Lemma MakeDay_in_month y m dt :
  0 <= m <= 11 ->
  MakeDay y m dt = DayFromYear y + monthStart m (leap y) + dt - 1.
Proof.
  intros. unfold MakeDay. rewrite Z.div_small, Z.mod_small by lia.
  now rewrite Z.add_0_r.
Qed.

(** A valid civil date is read back from the time value built from it. *)
Lemma civil_MakeDate y m dt tod :
  0 <= m <= 11 -> 1 <= dt <= DaysInMonth y m -> 0 <= tod < msPerDay ->
  civil (MakeDate (MakeDay y m dt) tod) = (y, m, dt).
Proof.
  intros Hm Hd Ht. rewrite MakeDay_in_month by lia.
  set (day := DayFromYear y + monthStart m (leap y) + dt - 1).
  destruct (DaysInYear_cases y) as [Hy Hl].
  assert (Hin : monthStart m (leap y) <= monthStart m (leap y) + dt - 1
                < monthStart (m + 1) (leap y)).
  { unfold DaysInMonth in Hd. lia. }
  destruct (monthStart_bounds m (leap y) ltac:(lia) ltac:(lia)) as [H0 Hend].
  assert (Hyear : YearFromDay day = y).
  { apply YearFromDay_unique. rewrite DayFromYear_succ. subst day. lia. }
  unfold civil, DateFromTime.
  unfold MonthFromTime, InLeapYear, DayWithinYear, YearFromTime.
  rewrite Day_MakeDate by lia. rewrite Hyear.
  assert (Hmon : monthOfDay (day - DayFromYear y) (leap y) = m).
  { apply monthOfDay_unique; [lia | lia |]. subst day. lia. }
  rewrite Hmon. subst day. f_equal. lia.
Qed.

(** The first of a later month is not an earlier day. *)
Lemma MakeDay_mono y m k dt :
  0 <= m <= 11 -> 0 <= k -> MakeDay y m dt <= MakeDay y (m + k) dt.
Proof.
  intros Hm Hk. rewrite MakeDay_in_month by lia. unfold MakeDay.
  pose proof (Z.mod_pos_bound (m + k) 12 ltac:(lia)) as Hr.
  pose proof (Z.div_mod (m + k) 12 ltac:(lia)) as Hq.
  assert (Hq0 : 0 <= (m + k) / 12) by (apply Z.div_pos; lia).
  destruct (DaysInYear_cases y) as [Hy Hl].
  destruct (DaysInYear_cases (y + (m + k) / 12)) as [Hy' Hl'].
  assert ((m + k) / 12 = 0 \/ 1 <= (m + k) / 12) as [E | G] by lia.
  - rewrite E, Z.add_0_r.
    pose proof (monthStart_mono m ((m + k) mod 12) (leap y)). lia.
  - pose proof (DayFromYear_mono (y + 1) (y + (m + k) / 12) ltac:(lia)) as Hd.
    rewrite DayFromYear_succ in Hd.
    pose proof (monthStart_bounds m (leap y) ltac:(lia) ltac:(lia)).
    pose proof (monthStart_mono m (m + 1) (leap y) ltac:(lia) ltac:(lia) ltac:(lia)).
    pose proof (monthStart_bounds ((m + k) mod 12) (leap (y + (m + k) / 12))
                  ltac:(lia) ltac:(lia)).
    lia.
Qed.

End DateFacts.

(** ** Numbers *)

(** A number that is not an integer has a negative exponent, wherever it
    comes from. *)
Lemma frac_exponent_negative mant K :
  0 < K -> K <> Z.gcd mant K -> - Z.log2 (K / Z.gcd mant K) < 0.
Proof.
  intros HK Hne.
  pose proof (Z.gcd_divide_r mant K) as [t Ht].
  pose proof (Z.gcd_nonneg mant K) as Hg.
  set (g := Z.gcd mant K) in *. clearbody g.
  assert (Hgpos : 0 < g).
  { destruct (Z.eq_dec g 0) as [-> |]; lia. }
  rewrite Ht, Z.div_mul by lia.
  assert (Ht2 : 2 <= t).
  { destruct (Z.eq_dec t 1) as [-> |]; [lia |].
    assert (0 < t) by nia. lia. }
  pose proof (Z.log2_le_mono 2 t Ht2) as Hlog.
  change (Z.log2 2) with 1 in Hlog. lia.
Qed.

Lemma round64_Frac n d m e : JS.round64 n d = Frac m e -> e < 0.
Proof.
  unfold JS.round64. repeat case_match; try done;
    intros [= _ <-]; apply frac_exponent_negative;
    first
      [ by apply Z.eqb_neq
      | match goal with
        | |- 0 < 2 ^ (- ?p) =>
            assert (p < 0) by (by apply Z.leb_gt);
            apply Z.pow_pos_nonneg; lia
        end ].
Qed.

Lemma unsigned_lit_Frac l m e : JS.unsigned_lit l = Frac m e -> e < 0.
Proof.
  unfold JS.unsigned_lit. repeat case_match; try done;
    apply round64_Frac.
Qed.

Lemma Number_Frac v m e : JS.Number v = Frac m e -> e < 0.
Proof.
  destruct v as [| b | z | s]; try done. cbn [JS.Number].
  unfold JS.StringToNumber, JS.radix_lit.
  repeat case_match; simplify_eq; try done;
    first [ apply round64_Frac
          | apply unsigned_lit_Frac
          | destruct (JS.unsigned_lit _) eqn:Hlit; try done;
            cbn [JS.negate]; intros [= _ <-];
            by eapply unsigned_lit_Frac ].
Qed.

Lemma or_default_Frac v k m e :
  JS.or_default (JS.Number v) k = Frac m e -> e < 0.
Proof.
  destruct (JS.Number v) as [| b | z | m' e'] eqn:Hnum; cbn; try done.
  - by destruct z.
  - intros [= <- <-]. by eapply Number_Frac.
Qed.

(** [Number] on some texts: a fraction, an exponent, a radix prefix, white
    space (the last one a no-break space), values that round, overflow and
    underflow, and texts that are no numbers. *)
Example Number_samples :
  JS.Number (JStr "-1e0") = Fin (-1) /\
  JS.Number (JStr "1.0") = Fin 1 /\
  JS.Number (JStr "2.5") = Frac 5 (-1) /\
  JS.Number (JStr ".5") = Frac 1 (-1) /\
  JS.Number (JStr "5.") = Fin 5 /\
  JS.Number (JStr "0.1") = Frac 3602879701896397 (-55) /\
  JS.Number (JStr "0x1F") = Fin 31 /\
  JS.Number (JStr "0b101") = Fin 5 /\
  JS.Number (JStr " 12 ") = Fin 12 /\
  JS.Number (JStr (String (ascii_of_nat 194) (String (ascii_of_nat 160) "7")))
  = Fin 7 /\
  JS.Number (JStr "9007199254740993") = Fin 9007199254740992 /\
  JS.Number (JStr "1e23") = Fin 99999999999999991611392 /\
  JS.Number (JStr "1e400") = Inf false /\
  JS.Number (JStr "-Infinity") = Inf true /\
  JS.Number (JStr "5e-324") = Frac 1 (-1074) /\
  JS.Number (JStr "1e-400") = Fin 0 /\
  JS.Number (JStr "") = Fin 0 /\
  JS.Number (JStr "abc") = NaN /\
  JS.Number (JStr "1 2") = NaN /\
  JS.Number (JStr "-0x10") = NaN /\
  JS.Number (JStr "1e") = NaN /\
  JS.Number (JStr ".") = NaN /\
  JS.Number (JStr "1_000") = NaN.
Proof. vm_compute. repeat split. Qed.

(** [2 ^ e <= a / d] one below the difference of the logarithms. *)
Lemma log2_ratio_below a d :
  0 < a -> 0 < d -> 1 <= Z.log2 a - Z.log2 d ->
  d * 2 ^ (Z.log2 a - Z.log2 d - 1) <= a.
Proof.
  intros Ha Hd He.
  pose proof (Z.log2_spec a Ha) as [Hla _].
  pose proof (Z.log2_spec d Hd) as [_ Hld].
  pose proof (Z.log2_nonneg d) as Hnn.
  replace (Z.log2 a) with (Z.succ (Z.log2 d) + (Z.log2 a - Z.log2 d - 1))
    in Hla by lia.
  rewrite Z.pow_add_r in Hla by lia.
  assert (0 < 2 ^ (Z.log2 a - Z.log2 d - 1)) by (apply Z.pow_pos_nonneg; lia).
  nia.
Qed.

(** Rounding and truncation do not take a number below a small integer it
    is not below. *)
Lemma truncate_round64_ge n d M z :
  0 < d -> 0 <= M <= 12 -> M * d <= n ->
  JS.truncate (JS.round64 n d) = Some z -> M <= z.
Proof.
  intros Hd HM Hn. unfold JS.round64.
  destruct (Z.eqb_spec n 0) as [-> | Hn0]; [intros [= <-]; nia |].
  assert (Hpos : 0 < n) by nia.
  rewrite (Z.abs_eq n), (Z.sgn_pos n) by lia.
  set (e0 := Z.log2 n - Z.log2 d).
  set (e := if (if 0 <=? e0 then d * 2 ^ e0 <=? n else d <=? n * 2 ^ (- e0))
            then e0 else e0 - 1).
  set (p := Z.max (e - 52) (-1074)).
  destruct (Z.leb_spec 0 p) as [Hp | Hp].
  - (* at least 2 ^ 52 *)
    assert (He : d * 2 ^ (p + 52) <= n).
    { assert (Hpe : p + 52 = e) by lia. rewrite Hpe. subst e.
      destruct (Z.leb_spec 0 e0) as [He0 | He0].
      - destruct (Z.leb_spec (d * 2 ^ e0) n); [done |].
        apply log2_ratio_below; lia.
      - destruct (d <=? n * 2 ^ (- e0)); lia. }
    rewrite Z.pow_add_r in He by lia.
    set (q := n / (d * 2 ^ p)). set (r := n mod (d * 2 ^ p)).
    assert (Hpow : 0 < 2 ^ p) by (apply Z.pow_pos_nonneg; lia).
    assert (Hq : 2 ^ 52 <= q).
    { apply Z.div_le_lower_bound; nia. }
    set (mant := if _ : bool then q + 1 else q).
    assert (Hmant : q <= mant) by (subst mant; case_match; lia).
    assert (H52 : 12 < 2 ^ 52) by done.
    destruct (Z.eqb_spec mant 0); [lia |].
    case_match; [done |]. intros [= <-]. nia.
  - set (K := 2 ^ (- p)).
    assert (HK : 0 < K) by (apply Z.pow_pos_nonneg; lia).
    set (q := n * K / d). set (r := (n * K) mod d).
    assert (Hq : M * K <= q).
    { apply Z.div_le_lower_bound; nia. }
    set (mant := if _ : bool then q + 1 else q).
    assert (Hmant : q <= mant) by (subst mant; case_match; lia).
    destruct (Z.eqb_spec mant 0); [intros [= <-]; nia |].
    pose proof (Z.gcd_divide_l mant K) as [u Hu].
    pose proof (Z.gcd_divide_r mant K) as [t Ht].
    pose proof (Z.gcd_nonneg mant K) as Hg.
    set (g := Z.gcd mant K) in *.
    assert (Hgpos : 0 < g) by (destruct (Z.eq_dec g 0); nia).
    assert (Htpos : 0 < t) by nia.
    assert (Hut : M * t <= u) by nia.
    assert (Hmg : mant / g = u) by (rewrite Hu; by apply Z.div_mul; lia).
    assert (HKg : K / g = t) by (rewrite Ht; by apply Z.div_mul; lia).
    rewrite Hmg, HKg.
    destruct (Z.eqb_spec K g) as [E | E]; cbn [JS.truncate]; intros [= <-].
    + assert (t = 1) by nia. nia.
    + rewrite Z.opp_involutive, Z.mul_1_l.
      pose proof (Z.log2_spec t Htpos) as [Hl _].
      assert (0 < 2 ^ Z.log2 t)
        by (apply Z.pow_pos_nonneg; [lia | apply Z.log2_nonneg]).
      rewrite Z.quot_div_nonneg by nia.
      apply Z.div_le_lower_bound; nia.
Qed.

(** ** [addMonths] *)
Section AddMonths.
Import Date DateFacts.

Lemma TimeClip_Some x r : TimeClip x = Some r -> r = x.
Proof. unfold TimeClip. destruct (_ <=? _); congruence. Qed.

Lemma addMonths_Some t m r :
  addMonths t (Fin m) = Some r ->
  r = MakeDate (MakeDay (YearFromTime t) (MonthFromTime t + m) (DateFromTime t))
               (TimeWithinDay t).
Proof. unfold addMonths, setMonth. apply TimeClip_Some. Qed.

(** Adding a non-negative number of months never moves a date back. *)
Lemma addMonths_nondecreasing t m r :
  0 <= m -> addMonths t (Fin m) = Some r -> t <= r.
Proof.
  intros Hm ->%addMonths_Some.
  rewrite <- (MakeDate_Day t) at 1. rewrite (Day_civil t).
  pose proof (MakeDay_mono (YearFromTime t) (MonthFromTime t) m (DateFromTime t)
                (MonthFromTime_range t) Hm).
  unfold MakeDate, msPerDay. lia.
Qed.

(** The same for any month count that is not negative: [getMonth() + months]
    is then not below [getMonth()], also after rounding and truncation. *)
Lemma addMonths_not_negative t m r :
  JS.lt0 m = false -> (forall k e, m = Frac k e -> e < 0) ->
  addMonths t m = Some r -> t <= r.
Proof.
  destruct m as [| b | z | k e]; try done.
  - intros Hz%Z.ltb_ge _. by apply addMonths_nondecreasing.
  - intros Hk%Z.ltb_ge He. specialize (He _ _ eq_refl). cbn [addMonths].
    destruct (JS.truncate _) as [z |] eqn:Htr; [| done].
    assert (Hpow : 0 < 2 ^ (- e)) by (apply Z.pow_pos_nonneg; lia).
    pose proof (MonthFromTime_range t) as Hm.
    apply (truncate_round64_ge _ _ (MonthFromTime t)) in Htr; [| lia | lia | lia].
    intros Hset. apply (addMonths_nondecreasing t (z - MonthFromTime t)); [lia |].
    unfold addMonths. rewrite <- Hset. f_equal. lia.
Qed.

Lemma MakeDay_norm y k dt :
  MakeDay y k dt = MakeDay (y + k / 12) (k mod 12) dt.
Proof.
  pose proof (Z.mod_pos_bound k 12 ltac:(lia)).
  rewrite (MakeDay_in_month (y + k / 12)) by lia. reflexivity.
Qed.

(** C5 (as the code has it).  [addMonths] does calendar-month arithmetic on
    the civil fields: the time of day is kept, and when the day of the
    month exists in the target month the result is that day of the target
    month.  When it does not, the result is not clamped: the excess days
    roll over into the month after the target month. *)
Theorem addMonths_rolls_over t m r :
  addMonths t (Fin m) = Some r ->
  let y := YearFromTime t + (MonthFromTime t + m) / 12 in
  let mn := (MonthFromTime t + m) mod 12 in
  let dt := DateFromTime t in
  TimeWithinDay r = TimeWithinDay t /\
  (dt <= DaysInMonth y mn -> civil r = (y, mn, dt)) /\
  (DaysInMonth y mn < dt -> civil r = (y, mn + 1, dt - DaysInMonth y mn)).
Proof.
  intros ->%addMonths_Some y mn dt.
  pose proof (TimeWithinDay_range t) as Htod.
  pose proof (Z.mod_pos_bound (MonthFromTime t + m) 12 ltac:(lia)) as Hmn.
  pose proof (DateFromTime_range t) as Hdt.
  pose proof (DaysInMonth_range (YearFromTime t) (MonthFromTime t)
                (MonthFromTime_range t)) as Hlen.
  rewrite MakeDay_norm. fold y mn dt.
  split; [now apply TimeWithinDay_MakeDate |].
  split; intros Hcmp.
  - apply civil_MakeDate; lia.
  - pose proof (DaysInMonth_range y mn ltac:(lia)) as Hlen'.
    assert (Hdec : mn <= 10).
    { destruct (Z.eq_dec mn 11) as [E |]; [| lia].
      exfalso. revert Hcmp. rewrite E. unfold DaysInMonth. months. lia. }
    assert (Hshift : MakeDay y mn dt = MakeDay y (mn + 1) (dt - DaysInMonth y mn)).
    { rewrite !MakeDay_in_month by lia. unfold DaysInMonth. lia. }
    rewrite Hshift.
    pose proof (DaysInMonth_range y (mn + 1) ltac:(lia)).
    apply civil_MakeDate; lia.
Qed.

Lemma addMonths_rolls_over_witness :
  addMonths 1675123200000 (Fin 1) = Some 1677801600000 /\
  civil 1675123200000 = (2023, 0, 31) /\
  civil 1677801600000 = (2023, 2, 3).
Proof.
  assert (H : addMonths 1675123200000 (Fin 1) = Some 1677801600000)
    by (vm_compute; reflexivity).
  split; [exact H |]. split; [vm_compute; reflexivity |].
  destruct (addMonths_rolls_over _ _ _ H) as (_ & _ & Hroll).
  apply Hroll. vm_compute. reflexivity.
Defined.

(** C5 (as the specification has it) fails: one month after 31 January
    2023 the code gives 3 March 2023, where clamping gives 28 February. *)
Lemma addMonths_does_not_clamp :
  civil 1675123200000 = (2023, 0, 31) /\
  addMonths 1675123200000 (Fin 1) = Some 1677801600000 /\
  civil 1677801600000 = (2023, 2, 3) /\
  addInterval_clamped 1675123200000 1 = 1677542400000 /\
  civil 1677542400000 = (2023, 1, 28) /\
  addMonths 1675123200000 (Fin 1) <> Some (addInterval_clamped 1675123200000 1).
Proof. repeat split; try (vm_compute; reflexivity). vm_compute. discriminate. Qed.

End AddMonths.

(** ** Lookups and in-place updates *)
Section Lists.
Context {A : Type} (P : A -> Prop) `{!forall x, Decision (P x)}.

(** Overwriting the element a search returned with one that still matches
    leaves the search at the same index. *)
Lemma list_find_insert_same (l : list A) i x x' :
  list_find P l = Some (i, x) -> P x' ->
  list_find P (<[i := x']> l) = Some (i, x').
Proof.
  intros (Hi & Hx & Hlt)%list_find_Some Hx'. apply list_find_Some.
  split_and!; [| done |].
  - apply list_lookup_insert_eq. by eapply lookup_lt_Some.
  - intros j y Hj Hji. rewrite list_lookup_insert_ne in Hj by lia. eauto.
Qed.

Lemma list_find_snoc_fresh (l : list A) x :
  list_find P l = None -> P x -> list_find P (l ++ [x]) = Some (length l, x).
Proof.
  intros Hnone Hx. rewrite list_find_app_r by done. cbn.
  rewrite decide_True by done. done.
Qed.

(** Reading index [k] after an update at the index of a search. *)
Lemma lookup_insert_cases (l : list A) i x x' k y :
  l !! i = Some x -> l !! k = Some y ->
  (k = i /\ y = x /\ <[i := x']> l !! k = Some x') \/
  (k <> i /\ <[i := x']> l !! k = Some y).
Proof.
  intros Hi Hk. destruct (decide (k = i)) as [-> | Hne].
  - left. split_and!; [done | congruence |].
    apply list_lookup_insert_eq. by eapply lookup_lt_Some.
  - right. split; [done |]. by rewrite list_lookup_insert_ne.
Qed.

End Lists.

(** ** The handlers *)

Lemma truthy_str_true s : s <> EmptyString -> JS.truthy_str s = true.
Proof. by destruct s. Qed.

Lemma devices_find_None c dev :
  dev ∉ devices c <->
  list_find (λ a, deviceId a = dev) (activations c) = None.
Proof.
  unfold devices. rewrite list_find_None, Forall_forall, list_elem_of_fmap.
  split.
  - intros Hn a Ha Heq. apply Hn. eauto.
  - intros Hall (a & -> & Ha). by eapply Hall.
Qed.

(** C8.  Verify for a device that has no activation entry on an existing
    license answers NotActivated and leaves the data file as it was: no
    entry is created and nothing is written. *)
Theorem verify_not_activated d key dev now i c :
  key <> EmptyString -> dev <> EmptyString ->
  list_find (λ x, licenseKey x = key) (readData d) = Some (i, c) ->
  dev ∉ devices c ->
  verify (Some key) (Some dev) now d = (NotActivated, d).
Proof.
  intros Hk Hd Hfind Hdev%devices_find_None. unfold verify.
  rewrite (truthy_str_true _ Hk), (truthy_str_true _ Hd). cbn.
  by rewrite Hfind, Hdev.
Qed.

Lemma verify_not_activated_witness :
  verify (Some sample_key) (Some "dev2"%string) (steady 1700000200000)
         (Stored [used_license])
  = (NotActivated, Stored [used_license]).
Proof.
  apply (verify_not_activated (Stored [used_license]) sample_key "dev2"
           (steady 1700000200000) 0%nat used_license).
  - discriminate.
  - discriminate.
  - vm_compute. reflexivity.
  - apply devices_find_None. vm_compute. reflexivity.
Defined.

(** C10.  When the data file is missing or does not parse, the handlers see
    the empty collection and do not throw: the list is empty, lookups by id
    answer NotFound, lookups by license key answer InvalidLicense, and every
    request gets the reply it gets on an empty collection. *)
Theorem unreadable_file_is_empty d :
  d = Missing \/ d = Corrupt ->
  list_customers d = (OkCustomers [], d) /\
  (forall cid months now, renew cid months now d = (NotFound, d)) /\
  (forall cid flag now, ban cid flag now d = (NotFound, d)) /\
  (forall key dev now, key <> EmptyString -> dev <> EmptyString ->
     activate (Some key) (Some dev) now d = (InvalidLicense, d) /\
     verify (Some key) (Some dev) now d = (InvalidLicense, d)) /\
  (forall r now,
     (handle r now d).1 = (handle r now (Stored [])).1 /\
     readData (handle r now d).2 = readData (handle r now (Stored [])).2).
Proof.
  intros Hd.
  assert (Hread : readData d = []) by (by destruct Hd as [-> | ->]).
  split_and!.
  - unfold list_customers. by rewrite Hread.
  - intros. unfold renew. by rewrite Hread.
  - intros. unfold ban. by rewrite Hread.
  - intros key dev now Hk Hv. unfold activate, verify.
    rewrite (truthy_str_true _ Hk), (truthy_str_true _ Hv), Hread. done.
  - intros r now.
    destruct r; cbn [handle];
      unfold issue, list_customers, renew, ban, activate, verify;
      rewrite Hread; cbn [readData];
      repeat case_match; done.
Qed.

Lemma unreadable_file_is_empty_witness :
  list_customers Missing = (OkCustomers [], Missing) /\
  renew "cust_k3x9q2m1ab4z" None (steady 1700000200000) Missing
  = (NotFound, Missing) /\
  activate (Some sample_key) (Some "dev1"%string) (steady 1700000200000) Missing
  = (InvalidLicense, Missing).
Proof.
  destruct (unreadable_file_is_empty Missing (or_introl eq_refl))
    as (Hlist & Hrenew & _ & Hkey & _).
  split_and!.
  - exact Hlist.
  - apply Hrenew.
  - apply Hkey; discriminate.
Defined.

(** C7 (as the code has it).  A transition that fails leaves the data file
    exactly as it was, except the activation of an expired license: that one
    writes the record back with its status set to [expired], and changes
    nothing else. *)
Theorem failed_transition_effect r now d rep d' :
  handle r now d = (rep, d') -> failed rep = true ->
  match rep with
  | Expired e =>
      exists key dev i c,
        r = Activate (Some key) (Some dev) /\
        list_find (λ x, licenseKey x = key) (readData d) = Some (i, c) /\
        status c <> banned /\ isExpired (expiresAt c) (read1 now) = true /\
        e = expiresAt c /\
        d' = Stored (<[i := set_status expired c]> (readData d))
  | _ => d' = d
  end.
Proof.
  intros Hrun Hfail.
  destruct r; cbn [handle] in Hrun;
    unfold issue, list_customers, renew, ban, activate, verify in Hrun;
    repeat case_match; simplify_eq; try done;
    unfold writeData; eexists _, _, _, _; split_and!; try done; congruence.
Qed.

Lemma failed_transition_effect_witness :
  (activate (Some sample_key) (Some "dev2"%string) (steady 1700000200000)
            (Stored [used_license])).2
  = Stored [used_license].
Proof.
  exact (failed_transition_effect
           (Activate (Some sample_key) (Some "dev2"%string))
           (steady 1700000200000)
           (Stored [used_license]) (DeviceLimitExceeded (JNum 1))
           (activate (Some sample_key) (Some "dev2"%string)
                     (steady 1700000200000) (Stored [used_license])).2
           eq_refl eq_refl).
Defined.

(** C7 (as the specification has it) fails: activating on a license whose
    expiry has passed answers Expired and rewrites the stored record, whose
    status goes from [active] to [expired]. *)
Lemma expired_activation_rewrites_record :
  let d := Stored [used_license] in
  let out := activate (Some sample_key) (Some "dev1"%string)
                      (steady 1702592000000) d in
  out.1 = Expired 1702592000000 /\ failed out.1 = true /\
  out.2 = Stored [set_status expired used_license] /\ out.2 <> d.
Proof. vm_compute. split_and!; try reflexivity. discriminate. Qed.

(** C2.  A record whose status is [banned] keeps that status through every
    request, whatever its expiry, except a ban request with a falsy [banned]
    field that finds this record: then the status becomes [expired] or
    [active] as the expiry test says. *)
Theorem banned_is_sticky r now d k c :
  readData d !! k = Some c -> status c = banned ->
  exists c',
    readData (handle r now d).2 !! k = Some c' /\
    status c' = if unbans r d k then status_by_expiry c (read1 now) else banned.
Proof.
  intros Hk Hb.
  destruct r as [rnd body | | cid months | cid flag | kf df | kf df];
    cbn [handle unbans].
  - (* Issue appends *)
    unfold issue. repeat case_match; cbn [snd]; eauto.
    exists c. split; [| done]. by apply lookup_app_l_Some.
  - eauto.
  - (* Renew writes the expiry only *)
    unfold renew.
    destruct (list_find _ _) as [[i c0] |] eqn:Hfind; cbn [snd]; [| eauto].
    destruct (addMonths _ _) as [e |]; cbn [snd readData writeData]; [| eauto].
    apply list_find_Some in Hfind as (Hi & _ & _).
    destruct (lookup_insert_cases _ i c0 (set_expiresAt e c0) k c Hi Hk)
      as [(-> & -> & Hl) | (Hne & Hl)]; eauto.
  - (* Ban *)
    unfold ban.
    destruct (list_find _ _) as [[i c0] |] eqn:Hfind;
      cbn [snd readData writeData fst fmap option_fmap option_map].
    + pose proof Hfind as (Hi & _ & _)%list_find_Some.
      destruct (lookup_insert_cases _ i c0
                  (set_status (if JS.truthy (default (JBool true) flag)
                               then banned
                               else if isExpired (expiresAt c0) (read1 now)
                                    then expired else active) c0) k c Hi Hk)
        as [(-> & -> & Hl) | (Hne & Hl)].
      * eexists. split; [exact Hl |]. rewrite bool_decide_eq_true_2 by done.
        cbn [status set_status]. unfold status_by_expiry.
        by destruct (JS.truthy _).
      * exists c. split; [exact Hl |].
        rewrite bool_decide_eq_false_2 by congruence.
        by rewrite andb_false_r.
    + exists c. split; [done |]. rewrite bool_decide_eq_false_2 by done.
      by rewrite andb_false_r.
  - (* Activate refuses a banned record and writes no other record *)
    unfold activate. repeat case_match; cbn [snd]; eauto;
      match goal with
      | H : list_find _ (readData _) = Some _ |- _ =>
          pose proof H as (Hi & _ & _)%list_find_Some
      end;
      cbn [readData writeData];
      match goal with
      | |- context [<[?i := ?x]> (readData d)] =>
          destruct (lookup_insert_cases _ i _ x k c Hi Hk)
            as [(-> & -> & Hl) | (Hne & Hl)]; [congruence | eauto]
      end.
  - (* Verify keeps [banned] *)
    unfold verify. repeat case_match; cbn [snd]; eauto;
      match goal with
      | H : list_find _ (readData _) = Some _ |- _ =>
          pose proof H as (Hi & _ & _)%list_find_Some
      end;
      cbn [readData writeData];
      match goal with
      | |- context [<[?i := ?x]> (readData d)] =>
          destruct (lookup_insert_cases _ i _ x k c Hi Hk)
            as [(-> & -> & Hl) | (Hne & Hl)]; eauto; congruence
      end.
Qed.

Lemma banned_is_sticky_witness :
  exists c',
    readData (handle (Verify (Some sample_key) (Some "dev1"%string))
                     (steady 1800000000000) (Stored [banned_license])).2 !! 0%nat
    = Some c' /\ status c' = banned.
Proof.
  exact (banned_is_sticky (Verify (Some sample_key) (Some "dev1"%string))
           (steady 1800000000000) (Stored [banned_license]) 0 banned_license
           eq_refl eq_refl).
Defined.

(** C4 (as the code has it).  On a license that is not expired, Renew sets
    the expiry to [addMonths] of the stored expiry, not of the current time,
    whenever that date is valid, and the new expiry is not before the old one
    provided the coerced month count is not negative (an integer or not).
    On an expired license the new expiry is [addMonths] of the current time,
    read after the expiry test. *)
Theorem renew_extends d cid months now i c :
  list_find (λ x, id x = cid) (readData d) = Some (i, c) ->
  let m := JS.or_default (JS.Number (default (JNum 3) months)) 3 in
  (isExpired (expiresAt c) (read1 now) = false ->
   forall e, addMonths (expiresAt c) m = Some e ->
     renew cid months now d
     = (OkCustomer (set_expiresAt e c),
        Stored (<[i := set_expiresAt e c]> (readData d))) /\
     (JS.lt0 m = false -> expiresAt c <= e)) /\
  (isExpired (expiresAt c) (read1 now) = true ->
   forall e, addMonths (read2 now) m = Some e ->
     renew cid months now d
     = (OkCustomer (set_expiresAt e c),
        Stored (<[i := set_expiresAt e c]> (readData d)))).
Proof.
  intros Hfind m. split; intros Hexp e He.
  - split.
    + unfold renew. rewrite Hfind, Hexp. fold m. by rewrite He.
    + intros Hpos. eapply addMonths_not_negative; [exact Hpos | | exact He].
      intros k e'. apply or_default_Frac.
  - unfold renew. rewrite Hfind, Hexp. fold m. by rewrite He.
Qed.

Lemma renew_extends_witness :
  renew "cust_k3x9q2m1ab4z" (Some (JNum 1)) (steady 1700000200000)
        (Stored [used_license])
  = (OkCustomer (set_expiresAt 1705270400000 used_license),
     Stored [set_expiresAt 1705270400000 used_license]) /\
  expiresAt used_license <= 1705270400000.
Proof.
  destruct (renew_extends (Stored [used_license]) "cust_k3x9q2m1ab4z"
              (Some (JNum 1)) (steady 1700000200000) 0 used_license eq_refl)
    as [Hlive _].
  destruct (Hlive eq_refl 1705270400000 eq_refl) as [Hrun Hmono].
  split; [exact Hrun |]. apply Hmono. reflexivity.
Defined.

(** C4 (as the specification has it) fails: a negative month count passes
    the coercion, and renewing an unexpired license by -1 month moves its
    expiry from 14 December to 14 November 2023. *)
Lemma renew_negative_months_decreases :
  let now := 1700000200000 in
  let out := renew "cust_k3x9q2m1ab4z" (Some (JNum (-1))) (steady now)
                   (Stored [used_license]) in
  isExpired (expiresAt used_license) now = false /\
  out = (OkCustomer (set_expiresAt 1700000000000 used_license),
         Stored [set_expiresAt 1700000000000 used_license]) /\
  1700000000000 < expiresAt used_license.
Proof. vm_compute. split_and!; reflexivity. Qed.

(** The month count may come as text: [-1e0] is -1, and 1.5 months on a date
    in November make December. *)
Example renew_months_as_text :
  renew "cust_k3x9q2m1ab4z" (Some (JStr "-1e0")) (steady 1700000200000)
        (Stored [used_license])
  = (OkCustomer (set_expiresAt 1700000000000 used_license),
     Stored [set_expiresAt 1700000000000 used_license]) /\
  addMonths 1700000000000 (JS.Number (JStr "1.5")) = Some 1702592000000 /\
  addMonths 1700000000000 (JS.Number (JStr "-0.5")) = Some 1697321600000.
Proof. vm_compute. repeat split. Qed.

(** ** Activation *)

Lemma not_expired_before e now : now < e -> isExpired e now = false.
Proof. unfold isExpired. intros. by apply Z.leb_gt. Qed.

(** Activation of a device that has no entry yet. *)
Lemma activate_absent cs i c key dev now :
  key <> EmptyString -> dev <> EmptyString ->
  list_find (λ x, licenseKey x = key) cs = Some (i, c) ->
  status c <> banned -> read1 now < expiresAt c -> dev ∉ devices c ->
  activate (Some key) (Some dev) now (Stored cs)
  = if JS.ge_json (Z.of_nat (length (activations c))) (maxDevices c)
    then (DeviceLimitExceeded (maxDevices c), Stored cs)
    else (OkActivated (expiresAt c) dev (name c),
          Stored (<[i := set_status active
                          (set_activations
                             (activations c ++ [first_activation (dev, now)]) c)]>
                    cs)).
Proof.
  intros Hk Hd Hfind Hst Hlive%not_expired_before Hdev%devices_find_None.
  unfold activate. rewrite (truthy_str_true _ Hk), (truthy_str_true _ Hd).
  cbn [negb orb readData]. rewrite Hfind, Hlive, Hdev.
  by destruct (status c).
Qed.

(** Activation of a device that already has an entry. *)
Lemma activate_present cs i c key dev now j a :
  key <> EmptyString -> dev <> EmptyString ->
  list_find (λ x, licenseKey x = key) cs = Some (i, c) ->
  status c <> banned -> read1 now < expiresAt c ->
  list_find (λ a, deviceId a = dev) (activations c) = Some (j, a) ->
  activate (Some key) (Some dev) now (Stored cs)
  = (OkActivated (expiresAt c) dev (name c),
     Stored (<[i := set_status active
                     (set_activations
                        (<[j := set_lastSeen (read2 now) a]> (activations c))
                        c)]> cs)).
Proof.
  intros Hk Hd Hfind Hst Hlive%not_expired_before Hdev.
  unfold activate. rewrite (truthy_str_true _ Hk), (truthy_str_true _ Hd).
  cbn [negb orb readData]. rewrite Hfind, Hlive, Hdev.
  by destruct (status c).
Qed.

(** Serving activations for devices that are pairwise distinct and new to
    the license, while the limit leaves room for all of them. *)
Lemma serve_fresh_devices key (N : Z) (reqs : list (string * clock)) :
  key <> EmptyString ->
  forall cs i c,
    list_find (λ x, licenseKey x = key) cs = Some (i, c) ->
    status c <> banned -> maxDevices c = JNum N ->
    NoDup reqs.*1 -> (forall dev, dev ∈ reqs.*1 -> dev ∉ devices c) ->
    Forall (λ p, p.1 <> EmptyString /\ read1 p.2 < expiresAt c) reqs ->
    Z.of_nat (length (activations c) + length reqs) <= N ->
    exists c',
      serve (activations_for key reqs) (Stored cs)
      = (map (λ p, OkActivated (expiresAt c) p.1 (name c)) reqs,
         Stored (<[i := c']> cs)) /\
      activations c' = activations c ++ map first_activation reqs /\
      licenseKey c' = licenseKey c /\ maxDevices c' = maxDevices c /\
      expiresAt c' = expiresAt c /\ name c' = name c /\ status c' <> banned.
Proof.
  intros Hk. induction reqs as [| [dev now] rest IH];
    intros cs i c Hfind Hst Hmax Hnd Hnew Hok Hroom.
  - exists c. cbn. rewrite app_nil_r.
    apply list_find_Some in Hfind as (Hi & _ & _).
    by rewrite list_insert_id.
  - cbn [fmap list_fmap fst] in Hnd, Hnew. apply NoDup_cons in Hnd as [Hfresh Hnd].
    apply Forall_cons in Hok as [[Hdev Hlive] Hok]. cbn [fst snd] in Hdev, Hlive.
    cbn [length] in Hroom.
    set (c1 := set_status active
                 (set_activations
                    (activations c ++ [first_activation (dev, now)]) c)).
    assert (Hstep : activate (Some key) (Some dev) now (Stored cs)
                    = (OkActivated (expiresAt c) dev (name c),
                       Stored (<[i := c1]> cs))).
    { rewrite (activate_absent cs i c) by (try done; apply Hnew; left).
      unfold JS.ge_json. rewrite Hmax. cbn [JS.Number].
      destruct (Z.leb_spec N (Z.of_nat (length (activations c)))); [lia | done]. }
    assert (Hkey : licenseKey c = key).
    { by apply list_find_Some in Hfind as (_ & ? & _). }
    destruct (IH (<[i := c1]> cs) i c1) as (c' & Hrun & Hacts & ? & ? & ? & ? & ?).
    + by apply (list_find_insert_same _ _ _ c).
    + done.
    + done.
    + done.
    + intros d Hd. unfold devices. cbn [activations c1 set_status set_activations].
      rewrite fmap_app. cbn. intros [Hin | ->%list_elem_of_singleton]%elem_of_app.
      * eapply Hnew; [right; exact Hd | exact Hin].
      * done.
    + done.
    + cbn [activations c1 set_status set_activations]. rewrite length_app. cbn. lia.
    + exists c'. cbn [activations_for map serve handle fst snd].
      rewrite Hstep. fold (activations_for key rest). rewrite Hrun.
      rewrite list_insert_insert_eq. split_and!; try done.
      rewrite Hacts. cbn [activations c1 set_status set_activations map].
      by rewrite <- app_assoc.
Qed.

(** C1 (as the code has it).  On a license with [maxDevices = N] that is not
    banned, activations for [N] pairwise distinct devices, in whatever order
    they arrive and each before the expiry, all succeed, each appending the
    entry of its device; after them an activation for any further device
    fails with DeviceLimitExceeded carrying [maxDevices] and writes nothing.
    The appended entry takes [activatedAt] and [lastSeen] from two successive
    readings of the clock, the second and third of the request: they are the
    same instant when the clock does not advance between the two. *)
Theorem activate_device_limit cs i c key (N : nat)
    (reqs : list (string * clock)) :
  key <> EmptyString ->
  list_find (λ x, licenseKey x = key) cs = Some (i, c) ->
  status c <> banned -> maxDevices c = JNum (Z.of_nat N) ->
  activations c = [] ->
  NoDup reqs.*1 ->
  Forall (λ p, p.1 <> EmptyString /\ read1 p.2 < expiresAt c) reqs ->
  length reqs = N ->
  exists c',
    serve (activations_for key reqs) (Stored cs)
    = (map (λ p, OkActivated (expiresAt c) p.1 (name c)) reqs,
       Stored (<[i := c']> cs)) /\
    activations c'
    = map (λ p, {| deviceId := p.1; activatedAt := read2 p.2;
                   lastSeen := read3 p.2 |}) reqs /\
    (Forall (λ p, read2 p.2 = read3 p.2) reqs ->
     Forall (λ a, activatedAt a = lastSeen a) (activations c')) /\
    forall dev now,
      dev <> EmptyString -> dev ∉ reqs.*1 -> read1 now < expiresAt c ->
      activate (Some key) (Some dev) now (Stored (<[i := c']> cs))
      = (DeviceLimitExceeded (JNum (Z.of_nat N)), Stored (<[i := c']> cs)).
Proof.
  intros Hk Hfind Hst Hmax Hnone Hnd Hok Hlen.
  destruct (serve_fresh_devices key (Z.of_nat N) reqs Hk cs i c)
    as (c' & Hrun & Hacts & Hkey & Hmax' & Hexp & Hname & Hst'); try done.
  { intros dev _. unfold devices. rewrite Hnone. apply not_elem_of_nil. }
  { rewrite Hnone. cbn. lia. }
  rewrite Hnone in Hacts. cbn [app] in Hacts.
  exists c'. split_and!; try done.
  { intros Hsame. rewrite Hacts. apply Forall_fmap.
    eapply Forall_impl; [exact Hsame |]. by intros [dev now]. }
  intros dev now Hdev Hfresh Hlive.
  assert (Hkey' : licenseKey c' = key).
  { rewrite Hkey. by apply list_find_Some in Hfind as (_ & ? & _). }
  rewrite (activate_absent _ i c').
  - unfold JS.ge_json. rewrite Hmax', Hmax, Hacts, length_map. cbn [JS.Number].
    destruct (Z.leb_spec (Z.of_nat N) (Z.of_nat (length reqs))); [done | lia].
  - done.
  - done.
  - by apply (list_find_insert_same _ _ _ c).
  - done.
  - by rewrite Hexp.
  - unfold devices. rewrite Hacts. intros (a & Ha & Hin)%list_elem_of_fmap.
    apply list_elem_of_fmap in Hin as (p & -> & Hp). apply Hfresh.
    apply list_elem_of_fmap. exists p. by destruct p.
Qed.

Lemma activate_device_limit_witness :
  exists c',
    serve (activations_for "LIC-ZZ99-YY88-XX77-WW66"
             [("devB"%string, steady 1700000300000);
              ("devA"%string,
               {| read1 := 1700000400000; read2 := 1700000400001;
                  read3 := 1700000400002 |})])
          (Stored [fresh_license; team_license])
    = ([OkActivated 1702592000000 "devB" "B"; OkActivated 1702592000000 "devA" "B"],
       Stored (<[1%nat := c']> [fresh_license; team_license])) /\
    activations c'
    = [{| deviceId := "devB"; activatedAt := 1700000300000;
          lastSeen := 1700000300000 |};
       {| deviceId := "devA"; activatedAt := 1700000400001;
          lastSeen := 1700000400002 |}] /\
    forall dev now,
      dev <> EmptyString ->
      dev ∉ ["devB"%string; "devA"%string] -> read1 now < 1702592000000 ->
      activate (Some "LIC-ZZ99-YY88-XX77-WW66"%string) (Some dev) now
               (Stored (<[1%nat := c']> [fresh_license; team_license]))
      = (DeviceLimitExceeded (JNum 2),
         Stored (<[1%nat := c']> [fresh_license; team_license])).
Proof.
  destruct (activate_device_limit [fresh_license; team_license] 1 team_license
              "LIC-ZZ99-YY88-XX77-WW66" 2
              [("devB"%string, steady 1700000300000);
               ("devA"%string,
                {| read1 := 1700000400000; read2 := 1700000400001;
                   read3 := 1700000400002 |})])
    as (c' & Hrun & Hacts & _ & Hlimit).
  - discriminate.
  - vm_compute. reflexivity.
  - discriminate.
  - reflexivity.
  - reflexivity.
  - apply (bool_decide_unpack _). vm_compute. exact I.
  - repeat constructor; cbn; (discriminate || lia).
  - reflexivity.
  - exists c'. split_and!; [exact Hrun | exact Hacts | exact Hlimit].
Defined.

(** C1 (as the specification has it) fails in its parenthesis: the entry is
    built with two calls of [new Date()], and when the clock advances between
    them the stored [activatedAt] and [lastSeen] differ. *)
Lemma activation_entry_spans_two_readings :
  let now := {| read1 := 1700000100000; read2 := 1700000100000;
                read3 := 1700000100001 |} in
  let out := activate (Some sample_key) (Some "dev1"%string) now
                      (Stored [fresh_license]) in
  out.1 = OkActivated 1702592000000 "dev1" "A" /\
  out.2 = Stored [set_activations
                    [{| deviceId := "dev1"; activatedAt := 1700000100000;
                        lastSeen := 1700000100001 |}] fresh_license] /\
  (1700000100000 : Z) <> 1700000100001.
Proof. vm_compute. split_and!; try reflexivity. discriminate. Qed.

(** ** Re-activation *)

Lemma fmap_insert_same_field {B} (f : activation -> B)
  (acts : list activation) (j : nat) a a' :
  acts !! j = Some a -> f a' = f a -> f <$> <[j := a']> acts = f <$> acts.
Proof.
  intros Hj Hf. rewrite list_fmap_insert, Hf.
  apply list_insert_id. by rewrite list_lookup_fmap, Hj.
Qed.

(** C3.  After a successful activation of a device on a license, activating
    the same pair again before the expiry finds the device's entry and only
    sets that entry's [lastSeen], to the clock reading that follows the
    expiry test: the reply is the same success, the devices
    and their [activatedAt] are as they were, the number of entries is
    unchanged, and when the device was new to the license before the first
    call it has one entry after the second. *)
Theorem activate_twice d key dev t1 t2 e dv nm d1 :
  activate (Some key) (Some dev) t1 d = (OkActivated e dv nm, d1) ->
  read1 t2 < e ->
  exists i c j a,
    list_find (λ x, licenseKey x = key) (readData d1) = Some (i, c) /\
    list_find (λ a, deviceId a = dev) (activations c) = Some (j, a) /\
    let c2 := set_status active
                (set_activations
                   (<[j := set_lastSeen (read2 t2) a]> (activations c)) c) in
    activate (Some key) (Some dev) t2 d1
    = (OkActivated e dev nm, Stored (<[i := c2]> (readData d1))) /\
    devices c2 = devices c /\
    activatedAt <$> activations c2 = activatedAt <$> activations c /\
    length (activations c2) = length (activations c) /\
    (forall i0 c0,
       list_find (λ x, licenseKey x = key) (readData d) = Some (i0, c0) ->
       dev ∉ devices c0 -> devices c2 = devices c0 ++ [dev]).
Proof.
  intros Hrun Hlive. unfold activate in Hrun.
  destruct (negb (JS.truthy_str key) || negb (JS.truthy_str dev)) eqn:Hargs;
    [done |].
  apply orb_false_elim in Hargs as [Hk Hd].
  assert (Hk' : key <> EmptyString) by (by destruct key).
  assert (Hd' : dev <> EmptyString) by (by destruct dev).
  destruct (list_find _ (readData d)) as [[i c0] |] eqn:Hfind; [| done].
  pose proof Hfind as (Hi & Hkey & _)%list_find_Some.
  assert (exists c1 j a,
             d1 = Stored (<[i := c1]> (readData d)) /\
             licenseKey c1 = key /\ status c1 = active /\
             expiresAt c1 = e /\ name c1 = nm /\
             list_find (λ a, deviceId a = dev) (activations c1) = Some (j, a) /\
             (dev ∉ devices c0 -> devices c1 = devices c0 ++ [dev]))
    as (c1 & j & a & -> & Hkey1 & Hst1 & He1 & Hn1 & Hdev1 & Hnew1).
  { repeat case_match; simplify_eq;
      (eexists _, _, _; split_and!; [reflexivity | done.. | |]);
      cbn [activations set_status set_activations];
      first
        [ (* the entry that was updated is found again *)
          by (eapply list_find_insert_same; [eassumption |];
              match goal with
              | H : list_find _ (activations _) = Some _ |- _ =>
                  apply list_find_Some in H as (_ & ? & _)
              end)
        | (* the entry that was appended is found *)
          by apply list_find_snoc_fresh
        | (* a device that had an entry was not new *)
          by (intros Habs%devices_find_None; congruence)
        | (* a device that was new has been appended *)
          by (intros _; unfold devices; cbn; rewrite fmap_app) ]. }
  cbn [readData].
  assert (Hfind1 : list_find (λ x, licenseKey x = key)
                     (<[i := c1]> (readData d)) = Some (i, c1))
    by (by apply (list_find_insert_same _ _ _ c0)).
  pose proof Hdev1 as (Hj & _ & _)%list_find_Some.
  exists i, c1, j, a. split_and!; try done.
  - rewrite (activate_present _ i c1 key dev t2 j a); try done.
    + by rewrite He1, Hn1.
    + by rewrite Hst1.
    + by rewrite He1.
  - unfold devices. cbn [activations set_status set_activations].
    by apply (fmap_insert_same_field _ _ j a).
  - cbn [activations set_status set_activations].
    by apply (fmap_insert_same_field _ _ j a).
  - cbn [activations set_status set_activations]. apply length_insert.
  - intros i0 c0' Hfind0 Hnew. simplify_eq.
    rewrite <- (Hnew1 Hnew). unfold devices.
    cbn [activations set_status set_activations].
    by apply (fmap_insert_same_field _ _ j a).
Qed.

Lemma activate_twice_witness :
  exists i c j a,
    list_find (λ x, licenseKey x = sample_key) [used_license] = Some (i, c) /\
    list_find (λ a, deviceId a = "dev1"%string) (activations c) = Some (j, a) /\
    let c2 := set_status active
                (set_activations
                   (<[j := set_lastSeen 1700000500000 a]> (activations c)) c) in
    activate (Some sample_key) (Some "dev1"%string) (steady 1700000500000)
             (Stored [used_license])
    = (OkActivated 1702592000000 "dev1" "A", Stored (<[i := c2]> [used_license])) /\
    devices c2 = devices c /\
    activatedAt <$> activations c2 = activatedAt <$> activations c /\
    length (activations c2) = length (activations c) /\
    (forall i0 c0,
       list_find (λ x, licenseKey x = sample_key) [fresh_license] = Some (i0, c0) ->
       "dev1"%string ∉ devices c0 -> devices c2 = devices c0 ++ ["dev1"%string]).
Proof.
  apply (activate_twice (Stored [fresh_license]) sample_key "dev1"
           (steady 1700000100000) (steady 1700000500000) 1702592000000
           "dev1" "A" (Stored [used_license])).
  - vm_compute. reflexivity.
  - reflexivity.
Defined.

(** ** Issue *)

(** C6 (the code at a failing input).  Issue coerces [months] and falls back
    to 6, but stores [maxDevices] as it came: a non-numeric string is kept,
    and the limit test of Activate is then false at every count. *)
Theorem issue_keeps_maxDevices_uncoerced :
  let rnd := {| fresh_id := "cust_k3x9q2m1ab4z"; fresh_key := sample_key |} in
  let body := {| b_name := Some "A"%string; b_email := Some "a@x.com"%string;
                 b_months := Some (JStr "abc");
                 b_maxDevices := Some (JStr "abc") |} in
  let c := {| id := "cust_k3x9q2m1ab4z"; name := "A"; email := "a@x.com";
              licenseKey := sample_key; status := active;
              maxDevices := JStr "abc"; createdAt := 1700000000000;
              expiresAt := 1715724800000; activations := [] |} in
  issue rnd body (steady 1700000000000) (Stored []) = (OkCustomer c, Stored [c]) /\
  addMonths 1700000000000 (Fin 6) = Some 1715724800000 /\
  forall n, JS.ge_json n (maxDevices c) = false.
Proof.
  split_and!; [vm_compute; reflexivity | vm_compute; reflexivity |].
  intros n. reflexivity.
Qed.

(** * Further properties *)

(** ** What one request does to the stored collection *)

(** A request leaves the file as it is, appends one fresh record, or
    rewrites one stored record in one of the four ways of [change]; only a
    renewal writes the expiry, and only a ban request with a truthy field
    bans. *)
Lemma handle_changes r now d :
  (handle r now d).2 = d \/
  (exists c, activations c = [] /\ status c = active /\
             (handle r now d).1 = OkCustomer c /\
             (handle r now d).2 = Stored (readData d ++ [c])) \/
  (exists i c c', readData d !! i = Some c /\ change c c' /\
                  (is_renew r = false -> expiresAt c' = expiresAt c) /\
                  (bans r = false -> status c <> banned -> status c' <> banned) /\
                  (is_ban r = false -> status c = banned -> status c' = banned) /\
                  (handle r now d).2 = Stored (<[i := c']> (readData d))).
Proof.
  destruct r; cbn [handle];
    unfold issue, list_customers, renew, ban, activate, verify;
    repeat case_match; cbn [fst snd]; simplify_eq;
    first
      [ by left
      | right; left; eexists; split_and!; [| | reflexivity | reflexivity];
        reflexivity
      | right; right;
        repeat match goal with
          | H : list_find _ _ = Some _ |- _ =>
              apply list_find_Some in H as (? & ? & _)
          | H : list_find _ (activations _) = None |- _ =>
              apply devices_find_None in H
          end;
        eexists _, _, _; split_and!; [eassumption | | | | | reflexivity];
        [ econstructor; eassumption || done
        | cbn; by intros
        | cbn; intros; repeat case_match; first [congruence | done]
        | cbn; intros; repeat case_match; first [congruence | done] ] ].
Qed.

Lemma serve_cons r now rest d :
  (serve ((r, now) :: rest) d).2 = (serve rest (handle r now d).2).2.
Proof.
  cbn [serve]. destruct (handle r now d) as [rep d1]. cbn [snd].
  by destruct (serve rest d1).
Qed.

(** A property of single records that every rewriting keeps and every
    record without activations has holds of all records after any sequence
    of requests. *)
Lemma serve_invariant (P : customer -> Prop) :
  (forall c c', change c c' -> P c -> P c') ->
  (forall c, activations c = [] -> P c) ->
  forall rs d, Forall P (readData d) -> Forall P (readData (serve rs d).2).
Proof.
  intros Hch Hnew rs. induction rs as [| [r now] rest IH]; intros d Hd; [done |].
  rewrite serve_cons. apply IH.
  destruct (handle_changes r now d)
    as [-> | [(c & Hc & _ & _ & ->) | (i & c & c' & Hi & Hcc & _ & _ & _ & ->)]].
  - done.
  - cbn [readData]. apply Forall_app. split; [done |].
    apply Forall_singleton. by apply Hnew.
  - cbn [readData]. apply Forall_insert; [done |].
    apply (Hch c); [done |]. by eapply Forall_lookup_1.
Qed.

(** A reflexive and transitive relation that every rewriting satisfies
    relates each stored record to the record at its index after any sequence
    of requests. *)
Lemma serve_record (R : customer -> customer -> Prop) :
  (forall c, R c c) -> (forall a b c, R a b -> R b c -> R a c) ->
  (forall c c', change c c' -> R c c') ->
  forall rs d k c,
    readData d !! k = Some c ->
    exists c', readData (serve rs d).2 !! k = Some c' /\ R c c'.
Proof.
  intros Hrefl Htrans Hch rs.
  induction rs as [| [r now] rest IH]; intros d k c Hk.
  { exists c. by split. }
  rewrite serve_cons.
  assert (exists c1, readData (handle r now d).2 !! k = Some c1 /\ R c c1)
    as (c1 & Hk1 & HR1).
  { destruct (handle_changes r now d)
      as [-> | [(cn & _ & _ & _ & ->) | (i & c0 & c' & Hi & Hcc & _ & _ & _ & ->)]].
    - exists c. by split.
    - exists c. split; [| done]. cbn [readData]. by apply lookup_app_l_Some.
    - cbn [readData].
      destruct (lookup_insert_cases _ i c0 c' k c Hi Hk)
        as [(-> & -> & Hl) | (Hne & Hl)].
      + exists c'. split; [done |]. by apply Hch.
      + exists c. by split. }
  destruct (IH _ k c1 Hk1) as (c' & Hk' & HR').
  exists c'. split; [done |]. by apply (Htrans c c1).
Qed.

Lemma same_identity_trans a b c :
  same_identity a b -> same_identity b c -> same_identity a c.
Proof.
  intros (? & ? & ? & ? & ? & ?) (? & ? & ? & ? & ? & ?).
  repeat split; congruence.
Qed.

(** ** Invariants of the stored records *)

(** X1.  No sequence of requests changes the id, name, email, license key,
    device limit or creation time of a stored record, and none removes or
    moves a record. *)
Theorem identity_fields_immutable rs d k c :
  readData d !! k = Some c ->
  exists c', readData (serve rs d).2 !! k = Some c' /\ same_identity c c'.
Proof.
  apply (serve_record same_identity).
  - by intros c0.
  - apply same_identity_trans.
  - by intros c0 c' [].
Qed.

Lemma identity_fields_immutable_witness :
  exists c',
    readData
      (serve [(Renew "cust_k3x9q2m1ab4z" (Some (JNum 2)), steady 1700000200000);
              (Ban "cust_k3x9q2m1ab4z" None, steady 1700000300000);
              (Activate (Some sample_key) (Some "dev9"%string),
               steady 1700000400000)]
             (Stored [used_license])).2 !! 0%nat = Some c' /\
    same_identity used_license c'.
Proof.
  exact (identity_fields_immutable _ (Stored [used_license]) 0 used_license
           eq_refl).
Defined.

Lemma extends_activations_trans a b c :
  extends_activations a b -> extends_activations b c -> extends_activations a c.
Proof. intros [? ?] [? ?]. split; by etransitivity. Qed.

Lemma change_extends c c' : change c c' -> extends_activations c c'.
Proof.
  intros [e c0 | s c0 | s j a t c0 Hj | s dev t c0 Hnew Hroom];
    unfold extends_activations, devices;
    cbn [activations set_expiresAt set_status set_activations]; try done.
  - by rewrite !(fmap_insert_same_field _ _ j a).
  - rewrite !fmap_app. split; by apply prefix_app_r.
Qed.

(** X2.  Activations are only ever appended: after any sequence of requests
    a record's devices and their [activatedAt] start with the ones it had, in
    the same order; no entry is removed, reordered or re-dated. *)
Theorem activations_append_only rs d k c :
  readData d !! k = Some c ->
  exists c', readData (serve rs d).2 !! k = Some c' /\ extends_activations c c'.
Proof.
  apply (serve_record extends_activations).
  - by intros c0.
  - apply extends_activations_trans.
  - apply change_extends.
Qed.

Lemma activations_append_only_witness :
  exists c',
    readData
      (serve [(Verify (Some sample_key) (Some "dev1"%string),
               steady 1700000200000);
              (Activate (Some sample_key) (Some "dev1"%string),
               steady 1700000300000)]
             (Stored [used_license])).2 !! 0%nat = Some c' /\
    extends_activations used_license c'.
Proof.
  exact (activations_append_only _ (Stored [used_license]) 0 used_license
           eq_refl).
Defined.

Lemma change_unique c c' :
  change c c' -> NoDup (devices c) -> NoDup (devices c').
Proof.
  intros [e c0 | s c0 | s j a t c0 Hj | s dev t c0 Hnew Hroom];
    unfold devices;
    cbn [activations set_expiresAt set_status set_activations]; try done.
  - by rewrite (fmap_insert_same_field _ _ j a).
  - intros Hnd. rewrite fmap_app. apply NoDup_app. split_and!; [done | |].
    + intros x Hx ->%list_elem_of_singleton. by apply Hnew.
    + apply NoDup_singleton.
Qed.

(** X3.  Device ids stay unique within each record: if no stored record
    lists a device twice, none does after any sequence of requests (new
    records included). *)
Theorem devices_stay_unique rs d :
  Forall (λ c, NoDup (devices c)) (readData d) ->
  Forall (λ c, NoDup (devices c)) (readData (serve rs d).2).
Proof.
  apply (serve_invariant (λ c, NoDup (devices c))).
  - apply change_unique.
  - intros c Hc. unfold devices. rewrite Hc. apply NoDup_nil_2.
Qed.

Lemma change_within_limit c c' :
  change c c' -> within_limit c -> within_limit c'.
Proof.
  intros [e c0 | s c0 | s j a t c0 Hj | s dev t c0 Hnew Hroom];
    unfold within_limit;
    cbn [activations maxDevices set_expiresAt set_status set_activations];
    try done.
  - destruct (JS.Number (maxDevices c0)) as [| [] | n | m e]; try done.
    + by intros ->.
    + by rewrite length_insert.
    + by rewrite length_insert.
  - unfold JS.ge_json in Hroom.
    destruct (JS.Number (maxDevices c0)) as [| [] | n | m e] eqn:Hnum;
      try done.
    + apply Z.leb_gt in Hroom. rewrite length_app. cbn [length]. lia.
    + apply Z.leb_gt in Hroom. apply Number_Frac in Hnum.
      rewrite length_app. cbn [length]. intros _.
      assert (Hpow : 0 < 2 ^ (- e)) by (apply Z.pow_pos_nonneg; lia).
      revert Hroom Hpow. generalize (2 ^ (- e)). intros K Hroom HK.
      pose proof (Z.div_mod (- m) K ltac:(lia)) as Hdiv.
      pose proof (Z.mod_pos_bound (- m) K HK) as Hmod.
      nia.
Qed.

(** X4.  The device limit is never overrun: if every stored record has at
    most as many activations as the number its [maxDevices] converts to,
    rounded up when it is not an integer (none when that number is negative),
    so does every record after any sequence of requests, whatever the
    requests and their order. *)
Theorem limit_is_kept rs d :
  Forall within_limit (readData d) ->
  Forall within_limit (readData (serve rs d).2).
Proof.
  apply (serve_invariant within_limit).
  - apply change_within_limit.
  - intros c Hc. unfold within_limit. rewrite Hc.
    destruct (JS.Number (maxDevices c)) as [| [] | n | m e]; try done;
      cbn; lia.
Qed.

Lemma devices_stay_unique_witness :
  Forall (λ c, NoDup (devices c)) (readData (serve sample_day (Stored [])).2).
Proof. apply (devices_stay_unique sample_day (Stored [])). constructor. Defined.

Lemma limit_is_kept_witness :
  Forall within_limit (readData (serve four_devices (Stored [shared_license])).2).
Proof.
  apply (limit_is_kept four_devices (Stored [shared_license])).
  apply Forall_singleton. vm_compute. discriminate.
Defined.

(** A limit of 2.5 admits the third device and refuses the fourth. *)
Example fractional_limit_rounds_up :
  (serve four_devices (Stored [shared_license])).1
  = [OkActivated 1702592000000 "d1" "C"; OkActivated 1702592000000 "d2" "C";
     OkActivated 1702592000000 "d3" "C"; DeviceLimitExceeded (JStr "2.5")].
Proof. vm_compute. reflexivity. Qed.

(** The sample day ends with one record, banned, holding the first device
    only and expiring three months after its first expiry. *)
Example sample_day_end :
  (serve sample_day (Stored [])).1
  = [OkCustomer
       {| id := "cust_k3x9q2m14z7p"; name := "A"; email := "a@x.com";
          licenseKey := "LIC-0AB1-0CD3-0EXX-0XXX"; status := active;
          maxDevices := JNum 1; createdAt := 1700000000000;
          expiresAt := 1702592000000; activations := [] |};
     OkActivated 1702592000000 "dev1" "A";
     DeviceLimitExceeded (JNum 1);
     OkCustomer
       {| id := "cust_k3x9q2m14z7p"; name := "A"; email := "a@x.com";
          licenseKey := "LIC-0AB1-0CD3-0EXX-0XXX"; status := active;
          maxDevices := JNum 1; createdAt := 1700000000000;
          expiresAt := 1710454400000;
          activations := [{| deviceId := "dev1"; activatedAt := 1700000100000;
                             lastSeen := 1700000100001 |}] |};
     OkVerified active 1710454400000;
     OkCustomer
       {| id := "cust_k3x9q2m14z7p"; name := "A"; email := "a@x.com";
          licenseKey := "LIC-0AB1-0CD3-0EXX-0XXX"; status := banned;
          maxDevices := JNum 1; createdAt := 1700000000000;
          expiresAt := 1710454400000;
          activations := [{| deviceId := "dev1"; activatedAt := 1700000100000;
                             lastSeen := 1700000400000 |}] |}].
Proof. vm_compute. reflexivity. Qed.

(** X5.  Only a ban request bans: when no stored record is banned and the
    sequence holds no ban request with a truthy or absent [banned] field, no
    record is banned afterwards; activation, verification, renewal and
    issuing never set that status. *)
Theorem only_ban_bans rs d :
  Forall (λ p, bans p.1 = false) rs ->
  Forall (λ c, status c <> banned) (readData d) ->
  Forall (λ c, status c <> banned) (readData (serve rs d).2).
Proof.
  revert d. induction rs as [| [r now] rest IH]; intros d Hrs Hd; [done |].
  apply Forall_cons in Hrs as [Hr Hrs]. cbn [fst] in Hr.
  rewrite serve_cons. apply IH; [done |].
  destruct (handle_changes r now d)
    as [-> | [(c & _ & Hst & _ & ->)
             | (i & c & c' & Hi & _ & _ & Hban & _ & ->)]].
  - done.
  - cbn [readData]. apply Forall_app. split; [done |].
    apply Forall_singleton. by rewrite Hst.
  - cbn [readData]. apply Forall_insert; [done |].
    apply Hban; [done |]. by eapply (Forall_lookup_1 _ _ _ _ Hd).
Qed.

Lemma only_ban_bans_witness :
  Forall (λ c, status c <> banned)
         (readData (serve (take 5 sample_day) (Stored [])).2).
Proof.
  apply (only_ban_bans (take 5 sample_day) (Stored [])).
  - repeat constructor.
  - constructor.
Defined.

(** X6.  Only a renewal moves an expiry: through any sequence of requests
    without a renew request, every stored record keeps its [expiresAt]. *)
Theorem expiry_changes_only_by_renew rs d k c :
  Forall (λ p, is_renew p.1 = false) rs ->
  readData d !! k = Some c ->
  exists c', readData (serve rs d).2 !! k = Some c' /\ expiresAt c' = expiresAt c.
Proof.
  revert d c. induction rs as [| [r now] rest IH]; intros d c Hrs Hk.
  { by exists c. }
  apply Forall_cons in Hrs as [Hr Hrs]. cbn [fst] in Hr.
  rewrite serve_cons.
  assert (exists c1, readData (handle r now d).2 !! k = Some c1 /\
                     expiresAt c1 = expiresAt c) as (c1 & Hk1 & He1).
  { destruct (handle_changes r now d)
      as [-> | [(cn & _ & _ & _ & ->)
               | (i & c0 & c' & Hi & _ & Hexp & _ & _ & ->)]].
    - by exists c.
    - exists c. split; [| done]. cbn [readData]. by apply lookup_app_l_Some.
    - cbn [readData].
      destruct (lookup_insert_cases _ i c0 c' k c Hi Hk)
        as [(-> & -> & Hl) | (Hne & Hl)].
      + exists c'. split; [done |]. by apply Hexp.
      + by exists c. }
  destruct (IH _ c1 Hrs Hk1) as (c' & Hk' & He').
  exists c'. split; [done |]. congruence.
Qed.

Lemma expiry_changes_only_by_renew_witness :
  exists c',
    readData
      (serve [(Activate (Some sample_key) (Some "dev1"%string),
               steady 1800000000000);
              (Ban "cust_k3x9q2m1ab4z" (Some (JBool false)), steady 1800000000001);
              (Verify (Some sample_key) (Some "dev1"%string),
               steady 1800000000002)]
             (Stored [used_license])).2 !! 0%nat = Some c' /\
    expiresAt c' = expiresAt used_license.
Proof.
  apply (expiry_changes_only_by_renew _ (Stored [used_license]) 0 used_license).
  - repeat constructor.
  - reflexivity.
Defined.

(** X7.  The collection only grows, and by Issue alone: a request changes
    the number of stored records by one when it is an Issue answered with the
    new record, and not at all otherwise. *)
Theorem collection_grows_only_by_issue r now d :
  length (readData (handle r now d).2)
  = (length (readData d)
     + match r, (handle r now d).1 with
       | Issue _ _, OkCustomer _ => 1
       | _, _ => 0
       end)%nat.
Proof.
  destruct r; cbn [handle];
    unfold issue, list_customers, renew, ban, activate, verify;
    repeat case_match; simplify_eq; cbn [fst snd readData writeData];
    rewrite ?length_insert, ?length_app; cbn [length]; lia.
Qed.

(** ** Laws of [addMonths] *)
Section CalendarLaws.
Import Date DateFacts.

(** From one month to the next the first day advances by 28 to 31 days. *)
Lemma MakeDay_step y m dt :
  28 <= MakeDay y (m + 1) dt - MakeDay y m dt <= 31.
Proof.
  unfold MakeDay.
  pose proof (Z.mod_pos_bound m 12 ltac:(lia)) as Hr.
  pose proof (Z.div_mod m 12 ltac:(lia)) as Hq.
  destruct (DaysInYear_cases (y + m / 12)) as [Hy Hl].
  assert (m mod 12 <= 10 \/ m mod 12 = 11) as [Hlt | Hdec] by lia.
  - assert (Hq' : (m + 1) / 12 = m / 12) by (Z.div_mod_to_equations; lia).
    assert (Hr' : (m + 1) mod 12 = m mod 12 + 1) by (Z.div_mod_to_equations; lia).
    rewrite Hq', Hr'.
    pose proof (DaysInMonth_range (y + m / 12) (m mod 12) ltac:(lia)) as Hlen.
    unfold DaysInMonth in Hlen. lia.
  - assert (Hq' : (m + 1) / 12 = m / 12 + 1) by (Z.div_mod_to_equations; lia).
    assert (Hr' : (m + 1) mod 12 = 0) by (Z.div_mod_to_equations; lia).
    rewrite Hq', Hr', Hdec, Z.add_assoc, DayFromYear_succ, Hy.
    months. lia.
Qed.

Lemma MakeDay_steps y m dt (n : nat) :
  28 * Z.of_nat n <= MakeDay y (m + Z.of_nat n) dt - MakeDay y m dt
    <= 31 * Z.of_nat n.
Proof.
  induction n as [| n IH].
  - rewrite Z.add_0_r. lia.
  - pose proof (MakeDay_step y (m + Z.of_nat n) dt).
    replace (m + Z.of_nat (S n)) with (m + Z.of_nat n + 1) by lia. lia.
Qed.

Lemma addMonths_unclipped t m : addMonths t (Fin m) = TimeClip (unclipped t m).
Proof. unfold addMonths, setMonth, unclipped. reflexivity. Qed.

Lemma unclipped_0 t : unclipped t 0 = t.
Proof.
  unfold unclipped. rewrite Z.add_0_r, <- Day_civil. apply MakeDate_Day.
Qed.

Lemma MakeDate_shift a b tod :
  MakeDate a tod = MakeDate b tod + (a - b) * msPerDay.
Proof. unfold MakeDate. ring. Qed.

Lemma unclipped_diff t m :
  unclipped t m
  = t + (MakeDay (YearFromTime t) (MonthFromTime t + m) (DateFromTime t)
         - MakeDay (YearFromTime t) (MonthFromTime t) (DateFromTime t))
        * msPerDay.
Proof.
  unfold unclipped.
  rewrite (MakeDate_shift _ (MakeDay (YearFromTime t) (MonthFromTime t)
                                     (DateFromTime t))).
  f_equal. rewrite <- Day_civil. apply MakeDate_Day.
Qed.

Lemma unclipped_bounds t m :
  (0 <= m -> t + 28 * m * msPerDay <= unclipped t m <= t + 31 * m * msPerDay) /\
  (m <= 0 -> t + 31 * m * msPerDay <= unclipped t m <= t + 28 * m * msPerDay).
Proof.
  rewrite unclipped_diff.
  set (Y := YearFromTime t). set (M := MonthFromTime t).
  set (D := DateFromTime t).
  assert (Hdiff : (0 <= m -> 28 * m <= MakeDay Y (M + m) D - MakeDay Y M D
                                <= 31 * m) /\
                  (m <= 0 -> 31 * m <= MakeDay Y (M + m) D - MakeDay Y M D
                                <= 28 * m)).
  { split; intros Hm.
    - pose proof (MakeDay_steps Y M D (Z.to_nat m)) as H.
      rewrite Z2Nat.id in H by done. lia.
    - pose proof (MakeDay_steps Y (M + m) D (Z.to_nat (- m))) as H.
      rewrite Z2Nat.id in H by lia.
      replace (M + m + - m) with M in H by lia. lia. }
  revert Hdiff. generalize (MakeDay Y (M + m) D - MakeDay Y M D).
  intros X [Hpos Hneg]. assert (Hms : 0 < msPerDay) by done.
  split; intros Hm; [specialize (Hpos Hm) | specialize (Hneg Hm)]; nia.
Qed.

(** X8.  Every month added moves a date by 28 to 31 days: for a
    non-negative count the result lies between 28 and 31 days per month after
    the date, for a negative count as much before it. *)
Theorem addMonths_bounds t m r :
  addMonths t (Fin m) = Some r ->
  (0 <= m -> t + 28 * m * msPerDay <= r <= t + 31 * m * msPerDay) /\
  (m <= 0 -> t + 31 * m * msPerDay <= r <= t + 28 * m * msPerDay).
Proof.
  rewrite addMonths_unclipped. intros ->%TimeClip_Some.
  apply unclipped_bounds.
Qed.

Lemma addMonths_bounds_witness :
  1700000000000 + 28 * 6 * msPerDay <= 1715724800000
    <= 1700000000000 + 31 * 6 * msPerDay.
Proof.
  apply (addMonths_bounds 1700000000000 6 1715724800000).
  - vm_compute. reflexivity.
  - lia.
Defined.

(** X9.  [addMonths] does not throw on dates that stay in range: when the
    date moved by 31 days per month is within the range of time values, a
    date is returned. *)
Theorem addMonths_in_range t m :
  Z.abs t + 31 * Z.abs m * msPerDay <= maxTime ->
  exists r, addMonths t (Fin m) = Some r.
Proof.
  intros Hfit. rewrite addMonths_unclipped. unfold TimeClip.
  destruct (unclipped_bounds t m) as [Hpos Hneg].
  destruct (Z.leb_spec (Z.abs (unclipped t m)) maxTime) as [| Hout]; [eauto |].
  exfalso. unfold msPerDay in *.
  destruct (Z.le_ge_cases 0 m) as [Hm | Hm];
    [specialize (Hpos Hm) | specialize (Hneg Hm)]; lia.
Qed.

Lemma addMonths_in_range_witness :
  exists r, addMonths 1700000000000 (Fin (-1200)) = Some r.
Proof.
  apply (addMonths_in_range 1700000000000 (-1200)).
  vm_compute. discriminate.
Defined.

(** Two additions in a row, from a day that every month has. *)
Lemma addMonths_twice t a b r :
  DateFromTime t <= 28 ->
  addMonths t (Fin a) = Some r ->
  addMonths r (Fin b) = addMonths t (Fin (a + b)).
Proof.
  intros Hday Hr. rewrite !addMonths_unclipped in *.
  apply TimeClip_Some in Hr. f_equal.
  set (Y := YearFromTime t) in *. set (M := MonthFromTime t) in *.
  set (D := DateFromTime t) in *.
  pose proof (Z.mod_pos_bound (M + a) 12 ltac:(lia)) as Hmn.
  pose proof (DateFromTime_range t) as HD. fold D in HD.
  pose proof (TimeWithinDay_range t) as Htod.
  pose proof (DaysInMonth_range (Y + (M + a) / 12) ((M + a) mod 12)
                ltac:(lia)) as Hlen.
  assert (Hciv : civil r = (Y + (M + a) / 12, (M + a) mod 12, D)).
  { rewrite Hr. unfold unclipped. fold Y M D. rewrite MakeDay_norm.
    apply civil_MakeDate; lia. }
  assert (Htod' : TimeWithinDay r = TimeWithinDay t).
  { rewrite Hr. unfold unclipped. by apply TimeWithinDay_MakeDate. }
  unfold civil in Hciv. injection Hciv as Hy Hm Hd.
  unfold unclipped at 1. rewrite Hy, Hm, Hd, Htod'.
  unfold unclipped. fold Y M D. f_equal.
  rewrite (MakeDay_norm Y (M + (a + b))).
  rewrite (MakeDay_norm (Y + (M + a) / 12)).
  f_equal; Z.div_mod_to_equations; lia.
Qed.

(** X10.  On a day of the month up to the 28th, month counts add up: adding
    [a] months and then [b] months is adding [a + b] months (both throw when
    the sum is out of range). *)
Theorem addMonths_additive t a b r :
  DateFromTime t <= 28 ->
  addMonths t (Fin a) = Some r ->
  addMonths r (Fin b) = addMonths t (Fin (a + b)).
Proof. apply addMonths_twice. Qed.

Lemma addMonths_additive_witness :
  addMonths 1702592000000 (Fin 2) = addMonths 1700000000000 (Fin (1 + 2)).
Proof.
  apply (addMonths_additive 1700000000000 1 2 1702592000000).
  - vm_compute. discriminate.
  - vm_compute. reflexivity.
Defined.

(** X11.  On a day of the month up to the 28th, adding a month count and
    then its opposite gives the date back. *)
Theorem addMonths_inverse t m r :
  DateFromTime t <= 28 -> Z.abs t <= maxTime ->
  addMonths t (Fin m) = Some r ->
  addMonths r (Fin (- m)) = Some t.
Proof.
  intros Hday Hfit Hr. rewrite (addMonths_twice t m (- m) r Hday Hr).
  rewrite Z.add_opp_diag_r, addMonths_unclipped, unclipped_0.
  unfold TimeClip. by rewrite (proj2 (Z.leb_le _ _) Hfit).
Qed.

Lemma addMonths_inverse_witness :
  addMonths 1702592000000 (Fin (- 1)) = Some 1700000000000.
Proof.
  apply (addMonths_inverse 1700000000000 1 1702592000000).
  - vm_compute. discriminate.
  - vm_compute. discriminate.
  - vm_compute. reflexivity.
Defined.

End CalendarLaws.

(** ** How the routes compose *)

Lemma verify_present cs i c key dev now j a :
  key <> EmptyString -> dev <> EmptyString ->
  list_find (λ x, licenseKey x = key) cs = Some (i, c) ->
  list_find (λ a, deviceId a = dev) (activations c) = Some (j, a) ->
  verify (Some key) (Some dev) now (Stored cs)
  = (OkVerified (decided_status c (read2 now)) (expiresAt c),
     Stored (<[i := set_status (decided_status c (read2 now))
                     (set_activations
                        (<[j := set_lastSeen (read1 now) a]> (activations c))
                        c)]> cs)).
Proof.
  intros Hk Hd Hfind Hdev. unfold verify, decided_status, status_by_expiry.
  rewrite (truthy_str_true _ Hk), (truthy_str_true _ Hd).
  cbn [negb orb readData]. rewrite Hfind, Hdev. by destruct (status c).
Qed.

(** X12.  Activate and Verify decide alike: for a device that has an entry
    on a license, each decides from the stored ban and from the expiry test
    at its own reading of the clock (the first reading in Activate, the
    second in Verify, which sets [lastSeen] first).  Verify reports [banned]
    where Activate answers Banned, [expired] where Activate answers Expired,
    and [active] where Activate succeeds; and after either call the stored
    status of the record is the status it decided. *)
Theorem verify_agrees_with_activate cs i c key dev now j a :
  key <> EmptyString -> dev <> EmptyString ->
  list_find (λ x, licenseKey x = key) cs = Some (i, c) ->
  list_find (λ a, deviceId a = dev) (activations c) = Some (j, a) ->
  let v := verify (Some key) (Some dev) now (Stored cs) in
  let act := activate (Some key) (Some dev) now (Stored cs) in
  v.1 = OkVerified (decided_status c (read2 now)) (expiresAt c) /\
  act.1 = match decided_status c (read1 now) with
          | banned => Banned
          | expired => Expired (expiresAt c)
          | active => OkActivated (expiresAt c) dev (name c)
          end /\
  (exists c', readData v.2 !! i = Some c' /\
              status c' = decided_status c (read2 now)) /\
  (exists c', readData act.2 !! i = Some c' /\
              status c' = decided_status c (read1 now)).
Proof.
  intros Hk Hd Hfind Hdev v act.
  pose proof Hfind as (Hi & _ & _)%list_find_Some.
  pose proof (lookup_lt_Some _ _ _ Hi) as Hlt.
  subst v act. rewrite (verify_present cs i c key dev now j a) by done.
  unfold activate. rewrite (truthy_str_true _ Hk), (truthy_str_true _ Hd).
  cbn [negb orb readData fst snd]. rewrite Hfind.
  unfold decided_status, status_by_expiry.
  destruct (status c) eqn:Hst;
    destruct (isExpired (expiresAt c) (read1 now)) eqn:Hexp;
    rewrite ?Hdev; cbn [fst snd readData writeData];
    (split_and!; [done | done | |]);
    first [ by (eexists; split; [by apply list_lookup_insert_eq |])
          | by (exists c) ].
Qed.

Lemma verify_agrees_with_activate_witness :
  (verify (Some sample_key) (Some "dev1"%string) (steady 1702592000000)
          (Stored [used_license])).1
  = OkVerified expired 1702592000000 /\
  (activate (Some sample_key) (Some "dev1"%string) (steady 1702592000000)
            (Stored [used_license])).1
  = Expired 1702592000000.
Proof.
  destruct (verify_agrees_with_activate [used_license] 0 used_license
              sample_key "dev1" (steady 1702592000000) 0
              {| deviceId := "dev1"; activatedAt := 1700000100000;
                 lastSeen := 1700000100000 |})
    as (Hv & Ha & _ & _).
  - discriminate.
  - discriminate.
  - vm_compute. reflexivity.
  - vm_compute. reflexivity.
  - split; [exact Hv | exact Ha].
Defined.

(** X13.  A ban takes effect on the license routes at once: after a ban
    request with a truthy or absent [banned] field has found a record, every
    Activate on that record's key answers Banned and writes nothing, and
    Verify of any of its devices reports [banned]. *)
Theorem ban_blocks_license d cid flag now i c key :
  list_find (λ x, id x = cid) (readData d) = Some (i, c) ->
  list_find (λ x, licenseKey x = key) (readData d) = Some (i, c) ->
  key <> EmptyString ->
  JS.truthy (default (JBool true) flag) = true ->
  let d' := (ban cid flag now d).2 in
  forall dev t,
    dev <> EmptyString ->
    activate (Some key) (Some dev) t d' = (Banned, d') /\
    (dev ∈ devices c ->
     (verify (Some key) (Some dev) t d').1 = OkVerified banned (expiresAt c)).
Proof.
  intros Hid Hkey Hk Hflag d' dev t Hd.
  assert (Hd' : d' = Stored (<[i := set_status banned c]> (readData d))).
  { subst d'. unfold ban. by rewrite Hid, Hflag. }
  assert (Hfind : list_find (λ x, licenseKey x = key)
                    (<[i := set_status banned c]> (readData d))
                  = Some (i, set_status banned c)).
  { apply (list_find_insert_same _ _ _ c); [done |].
    by apply list_find_Some in Hkey as (_ & ? & _). }
  rewrite Hd'. split.
  - unfold activate. rewrite (truthy_str_true _ Hk), (truthy_str_true _ Hd).
    cbn [negb orb readData]. by rewrite Hfind.
  - intros Hin.
    destruct (list_find (λ a, deviceId a = dev) (activations c))
      as [[j a] |] eqn:Hdev.
    + by rewrite (verify_present _ i (set_status banned c) key dev t j a).
    + by apply devices_find_None in Hdev.
Qed.

Lemma ban_blocks_license_witness :
  activate (Some sample_key) (Some "dev1"%string) (steady 1700000600000)
           (ban "cust_k3x9q2m1ab4z" None (steady 1700000500000)
                (Stored [used_license])).2
  = (Banned,
     (ban "cust_k3x9q2m1ab4z" None (steady 1700000500000)
          (Stored [used_license])).2).
Proof.
  apply (ban_blocks_license (Stored [used_license]) "cust_k3x9q2m1ab4z" None
           (steady 1700000500000) 0 used_license sample_key).
  - vm_compute. reflexivity.
  - vm_compute. reflexivity.
  - discriminate.
  - reflexivity.
  - discriminate.
Defined.

(** What a successful activation leaves behind: the record found by the key
    is written back at its index, active, with an entry for the device. *)
Lemma activate_ok_inv d key dev t e dv nm d1 :
  activate (Some key) (Some dev) t d = (OkActivated e dv nm, d1) ->
  key <> EmptyString /\ dev <> EmptyString /\
  exists i c1 j a,
    d1 = Stored (<[i := c1]> (readData d)) /\
    list_find (λ x, licenseKey x = key) (<[i := c1]> (readData d)) = Some (i, c1) /\
    status c1 = active /\ expiresAt c1 = e /\ name c1 = nm /\ read1 t < e /\
    list_find (λ a, deviceId a = dev) (activations c1) = Some (j, a).
Proof.
  intros Hrun. unfold activate in Hrun.
  destruct (negb (JS.truthy_str key) || negb (JS.truthy_str dev)) eqn:Hargs;
    [done |].
  apply orb_false_elim in Hargs as [Hk Hd].
  split; [by destruct key |]. split; [by destruct dev |].
  destruct (list_find _ (readData d)) as [[i c0] |] eqn:Hfind; [| done].
  pose proof Hfind as (_ & Hkey & _)%list_find_Some.
  destruct (status c0) eqn:Hst; [| | done];
    (destruct (isExpired (expiresAt c0) (read1 t)) eqn:Hexp; [done |]);
    apply Z.leb_gt in Hexp;
    (destruct (list_find _ (activations c0)) as [[j a] |] eqn:Hdev;
     [| destruct (JS.ge_json _ _); [done |]]);
    simplify_eq;
    eexists i, _, _, _;
    (split_and!;
     [ reflexivity
     | by apply (list_find_insert_same _ _ _ c0)
     | done | done | done | done | ]);
    cbn [activations set_status set_activations];
    first [ by (eapply list_find_insert_same; [eassumption |];
                by apply list_find_Some in Hdev as (_ & ? & _))
          | by apply list_find_snoc_fresh ].
Qed.

(** X14.  A device that has been activated verifies: after a successful
    Activate, Verify of the same key and device never answers NotActivated or
    InvalidLicense; it reports [active] before the expiry and [expired] from
    the expiry on, the expiry test being made at the second reading of the
    clock of the Verify. *)
Theorem activate_then_verify d key dev t1 t2 e dv nm d1 :
  activate (Some key) (Some dev) t1 d = (OkActivated e dv nm, d1) ->
  (verify (Some key) (Some dev) t2 d1).1
  = OkVerified (if isExpired e (read2 t2) then expired else active) e.
Proof.
  intros (Hk & Hd & i & c1 & j & a & -> & Hfind & Hst & <- & _ & _ & Hdev)
         %activate_ok_inv.
  rewrite (verify_present _ i c1 key dev t2 j a) by done.
  unfold decided_status, status_by_expiry. by rewrite Hst.
Qed.

Lemma activate_then_verify_witness :
  (verify (Some sample_key) (Some "dev1"%string) (steady 1702592000000)
          (Stored [used_license])).1
  = OkVerified expired 1702592000000.
Proof.
  apply (activate_then_verify (Stored [fresh_license]) sample_key "dev1"
           (steady 1700000100000) (steady 1702592000000) 1702592000000
           "dev1" "A" (Stored [used_license])).
  vm_compute. reflexivity.
Defined.

(** A positive month count gives a later date. *)
Lemma addMonths_later t z e :
  1 <= z -> addMonths t (Fin z) = Some e -> t < e.
Proof.
  rewrite addMonths_unclipped. intros Hz ->%TimeClip_Some.
  destruct (unclipped_bounds t z) as [Hpos _].
  assert (0 < Date.msPerDay) by done. specialize (Hpos ltac:(lia)). nia.
Qed.

(** A negative month count gives an earlier date. *)
Lemma addMonths_earlier t z e :
  z <= -1 -> addMonths t (Fin z) = Some e -> e < t.
Proof.
  rewrite addMonths_unclipped. intros Hz ->%TimeClip_Some.
  destruct (unclipped_bounds t z) as [_ Hneg].
  assert (0 < Date.msPerDay) by done. specialize (Hneg ltac:(lia)). nia.
Qed.

(** X15.  Renewal revives an expired license: when Renew with an integer
    month count of at least 1 succeeds on an expired record that is not
    banned, the new expiry is later than the clock reading it was computed
    from, the stored status is still the stale one, and an Activate of one of
    the record's devices, answered Expired before the renewal, succeeds with
    the new expiry at any later time before it. *)
Theorem renew_revives_expired d cid months now i c key dev j a z e :
  list_find (λ x, id x = cid) (readData d) = Some (i, c) ->
  list_find (λ x, licenseKey x = key) (readData d) = Some (i, c) ->
  key <> EmptyString -> dev <> EmptyString ->
  status c <> banned -> isExpired (expiresAt c) (read1 now) = true ->
  list_find (λ a, deviceId a = dev) (activations c) = Some (j, a) ->
  JS.or_default (JS.Number (default (JNum 3) months)) 3 = Fin z -> 1 <= z ->
  addMonths (read2 now) (Fin z) = Some e ->
  let d' := (renew cid months now d).2 in
  read2 now < e /\
  (exists c', readData d' !! i = Some c' /\ status c' = status c) /\
  (activate (Some key) (Some dev) now d).1 = Expired (expiresAt c) /\
  (forall t, read1 t < e ->
     (activate (Some key) (Some dev) t d').1 = OkActivated e dev (name c)).
Proof.
  intros Hid Hkey Hk Hd Hst Hexp Hdev Hm Hz He d'.
  pose proof Hid as (Hi & _ & _)%list_find_Some.
  assert (Hd' : d' = Stored (<[i := set_expiresAt e c]> (readData d))).
  { subst d'. unfold renew. by rewrite Hid, Hexp, Hm, He. }
  rewrite Hd'. split_and!.
  - by eapply addMonths_later.
  - exists (set_expiresAt e c). split; [| reflexivity]. cbn [readData].
    apply list_lookup_insert_eq. by eapply lookup_lt_Some.
  - unfold activate. rewrite (truthy_str_true _ Hk), (truthy_str_true _ Hd).
    cbn [negb orb]. rewrite Hkey, Hexp. by destruct (status c).
  - intros t Ht.
    rewrite (activate_present _ i (set_expiresAt e c) key dev t j a);
      try done.
    apply (list_find_insert_same _ _ _ c); [done |].
    by apply list_find_Some in Hkey as (_ & ? & _).
Qed.

Lemma renew_revives_expired_witness :
  (activate (Some sample_key) (Some "dev1"%string) (steady 1800000000000)
            (Stored [used_license])).1
  = Expired 1702592000000 /\
  (activate (Some sample_key) (Some "dev1"%string) (steady 1800000000005)
            (renew "cust_k3x9q2m1ab4z" (Some (JStr "3e0"))
                   (steady 1800000000000) (Stored [used_license])).2).1
  = OkActivated 1807776000000 "dev1" "A".
Proof.
  assert (H1 : list_find (λ x, id x = "cust_k3x9q2m1ab4z"%string)
                 (readData (Stored [used_license])) = Some (0%nat, used_license))
    by (vm_compute; reflexivity).
  assert (H2 : list_find (λ x, licenseKey x = sample_key)
                 (readData (Stored [used_license])) = Some (0%nat, used_license))
    by (vm_compute; reflexivity).
  assert (H3 : list_find (λ a, deviceId a = "dev1"%string)
                 (activations used_license)
               = Some (0%nat, {| deviceId := "dev1";
                                 activatedAt := 1700000100000;
                                 lastSeen := 1700000100000 |}))
    by (vm_compute; reflexivity).
  assert (H4 : addMonths 1800000000000 (Fin 3) = Some 1807776000000)
    by (vm_compute; reflexivity).
  assert (H5 : JS.or_default
                 (JS.Number (default (JNum 3) (Some (JStr "3e0")))) 3 = Fin 3)
    by (vm_compute; reflexivity).
  destruct (renew_revives_expired (Stored [used_license]) "cust_k3x9q2m1ab4z"
              (Some (JStr "3e0")) (steady 1800000000000) 0 used_license
              sample_key "dev1" 0 _ 3
              1807776000000 H1 H2 ltac:(discriminate) ltac:(discriminate)
              ltac:(discriminate) eq_refl H3 H5 ltac:(lia) H4)
    as (_ & _ & Hbefore & Hafter).
  split; [exact Hbefore |]. apply Hafter. reflexivity.
Defined.

(** ** Issue and the lookups *)

(** What a successful Issue stores. *)
Lemma issue_ok_inv rnd b now d c d1 :
  issue rnd b now d = (OkCustomer c, d1) ->
  d1 = Stored (readData d ++ [c]) /\
  id c = fresh_id rnd /\ licenseKey c = fresh_key rnd /\
  status c = active /\ activations c = [] /\ createdAt c = read1 now /\
  maxDevices c = default (JNum 2) (b_maxDevices b) /\
  b_name b = Some (name c) /\
  addMonths (read2 now)
            (JS.or_default (JS.Number (default (JNum 6) (b_months b))) 6)
  = Some (expiresAt c).
Proof.
  unfold issue. intros Hrun. repeat case_match; simplify_eq. by split_and!.
Qed.

(** X16.  With an integer month count, a freshly issued license is usable
    exactly when the count is positive.  If the new key is not empty and no
    stored record has it: with a coerced count of at least 1 the expiry is
    later than the clock reading it was computed from, and an Activate before
    the expiry succeeds when the limit admits a first device; with a negative
    count the expiry is earlier than that reading, and every Activate from
    then on answers Expired (the license is born expired). *)
Theorem issued_license_activates rnd b now d c d1 dev z :
  issue rnd b now d = (OkCustomer c, d1) ->
  Forall (λ x, licenseKey x <> fresh_key rnd) (readData d) ->
  fresh_key rnd <> EmptyString -> dev <> EmptyString ->
  JS.or_default (JS.Number (default (JNum 6) (b_months b))) 6 = Fin z ->
  (1 <= z ->
   read2 now < expiresAt c /\
   (JS.ge_json 0 (maxDevices c) = false ->
    forall t, read1 t < expiresAt c ->
      (activate (Some (fresh_key rnd)) (Some dev) t d1).1
      = OkActivated (expiresAt c) dev (name c))) /\
  (z <= -1 ->
   expiresAt c < read2 now /\
   forall t, read2 now <= read1 t ->
     (activate (Some (fresh_key rnd)) (Some dev) t d1).1
     = Expired (expiresAt c)).
Proof.
  intros (-> & _ & Hkey & Hst & Hacts & _ & _ & _ & He)%issue_ok_inv
         Hfresh Hk Hd Hm.
  rewrite Hm in He.
  assert (Hfind : list_find (λ x, licenseKey x = fresh_key rnd)
                    (readData d ++ [c]) = Some (length (readData d), c)).
  { apply list_find_snoc_fresh; [| done]. by apply list_find_None. }
  split.
  - intros Hz. split; [by eapply addMonths_later |]. intros Hroom t Ht.
    rewrite (activate_absent _ (length (readData d)) c); try done.
    + rewrite Hacts. change (Z.of_nat (length [])) with 0. by rewrite Hroom.
    + by rewrite Hst.
    + unfold devices. rewrite Hacts. apply not_elem_of_nil.
  - intros Hz. apply (addMonths_earlier _ _ _ Hz) in He.
    split; [done |]. intros t Ht.
    unfold activate. rewrite (truthy_str_true _ Hk), (truthy_str_true _ Hd).
    cbn [negb orb readData]. rewrite Hfind, Hst.
    unfold isExpired. by rewrite (proj2 (Z.leb_le _ _)) by lia.
Qed.

Lemma issued_license_activates_witness :
  (activate (Some "LIC-0AB1-0CD3-0EXX-0XXX"%string) (Some "dev1"%string)
            (steady 1700000000001)
            (handle sample_issue (steady 1700000000000)
                    (Stored [used_license])).2).1
  = OkActivated 1702592000000 "dev1" "A".
Proof.
  assert (Hrun : issue (Gen.draw sample_draws)
                   {| b_name := Some "A"%string; b_email := Some "a@x.com"%string;
                      b_months := Some (JNum 1); b_maxDevices := Some (JNum 1) |}
                   (steady 1700000000000) (Stored [used_license])
                 = (OkCustomer
                      {| id := "cust_k3x9q2m14z7p"; name := "A"; email := "a@x.com";
                         licenseKey := "LIC-0AB1-0CD3-0EXX-0XXX"; status := active;
                         maxDevices := JNum 1; createdAt := 1700000000000;
                         expiresAt := 1702592000000; activations := [] |},
                    (handle sample_issue (steady 1700000000000)
                            (Stored [used_license])).2))
    by (vm_compute; reflexivity).
  destruct (issued_license_activates _ _ _ _ _ _ "dev1" 1 Hrun) as [Hlive _].
  - repeat constructor. vm_compute. discriminate.
  - vm_compute. discriminate.
  - discriminate.
  - reflexivity.
  - destruct (Hlive ltac:(lia)) as [_ Hact].
    apply (Hact eq_refl (steady 1700000000001)). reflexivity.
Defined.

(** X17.  Keys and ids are not checked for uniqueness, and the lookups take
    the first match: when Issue draws the license key (or the id) of a stored
    record, the lookup by that key (or id) still lands on the older record,
    so no Activate, Verify, Renew or Ban reaches the new one. *)
Theorem issue_duplicate_is_shadowed rnd b now d c d1 :
  issue rnd b now d = (OkCustomer c, d1) ->
  (forall i c0,
     list_find (λ x, licenseKey x = fresh_key rnd) (readData d) = Some (i, c0) ->
     list_find (λ x, licenseKey x = licenseKey c) (readData d1) = Some (i, c0)) /\
  (forall i c0,
     list_find (λ x, id x = fresh_id rnd) (readData d) = Some (i, c0) ->
     list_find (λ x, id x = id c) (readData d1) = Some (i, c0)).
Proof.
  intros (-> & Hid & Hkey & _)%issue_ok_inv. rewrite Hid, Hkey.
  split; intros i c0 Hfind; cbn [readData]; by apply list_find_app_l.
Qed.

Lemma issue_duplicate_is_shadowed_witness :
  list_find (λ x, licenseKey x = sample_key)
    (readData (issue {| fresh_id := "cust_zzzz"; fresh_key := sample_key |}
                     {| b_name := Some "B"%string; b_email := Some "b@x.com"%string;
                        b_months := None; b_maxDevices := None |}
                     (steady 1700000000000) (Stored [used_license])).2)
  = Some (0%nat, used_license).
Proof.
  assert (Hrun : issue {| fresh_id := "cust_zzzz"; fresh_key := sample_key |}
                   {| b_name := Some "B"%string; b_email := Some "b@x.com"%string;
                      b_months := None; b_maxDevices := None |}
                   (steady 1700000000000) (Stored [used_license])
                 = (OkCustomer
                      {| id := "cust_zzzz"; name := "B"; email := "b@x.com";
                         licenseKey := sample_key; status := active;
                         maxDevices := JNum 2; createdAt := 1700000000000;
                         expiresAt := 1715724800000; activations := [] |},
                    (issue {| fresh_id := "cust_zzzz"; fresh_key := sample_key |}
                       {| b_name := Some "B"%string;
                          b_email := Some "b@x.com"%string;
                          b_months := None; b_maxDevices := None |}
                       (steady 1700000000000) (Stored [used_license])).2))
    by (vm_compute; reflexivity).
  destruct (issue_duplicate_is_shadowed _ _ _ _ _ _ Hrun) as [Hkey _].
  apply (Hkey 0%nat used_license). vm_compute. reflexivity.
Defined.

(** ** The generators *)
Section Generators.
Import Gen.

Lemma filter_all_AZ09 l : forallb is_AZ09 (List.filter is_AZ09 l) = true.
Proof.
  induction l as [| c l IH]; [done |]. cbn.
  destruct (is_AZ09 c) eqn:Hc; [| done]. cbn. by rewrite Hc.
Qed.

(** A block is four characters among [A-Z0-9], whatever the random text. *)
Lemma block_shape r :
  exists c1 c2 c3 c4,
    block r = [c1; c2; c3; c4] /\
    is_AZ09 c1 = true /\ is_AZ09 c2 = true /\
    is_AZ09 c3 = true /\ is_AZ09 c4 = true.
Proof.
  unfold block.
  pose proof (filter_all_AZ09 (map toUpperCase (list_ascii_of_string r))) as Hall.
  destruct (List.filter _ _) as [| c1 [| c2 [| c3 [| c4 rest]]]];
    cbn in Hall |- *; repeat (apply andb_prop in Hall as [? Hall]);
    eexists _, _, _, _; (split; [reflexivity |]); by split_and!.
Qed.

(** A random text that starts with the digit 0 gives a block that starts
    with 0. *)
Lemma block_leading_zero rest :
  exists c2 c3 c4, block (String "0" rest) = ["0"%char; c2; c3; c4].
Proof.
  unfold block. cbn [list_ascii_of_string map].
  change (toUpperCase "0") with "0"%char. cbn [List.filter].
  change (is_AZ09 "0") with true. cbv iota.
  destruct (List.filter _ _) as [| c2 [| c3 [| c4 tl]]]; cbn; eauto.
Qed.

(** X18.  Every generated license key has the documented shape: [LIC-]
    followed by four dash-separated blocks of four characters among [A-Z0-9],
    23 characters in all, whatever the random draws. *)
Theorem genLicenseKey_format r1 r2 r3 r4 :
  key_format (genLicenseKey r1 r2 r3 r4) = true.
Proof.
  unfold key_format, genLicenseKey.
  rewrite list_ascii_of_string_of_list_ascii.
  destruct (block_shape r1) as (a1 & a2 & a3 & a4 & -> & Ha1 & Ha2 & Ha3 & Ha4).
  destruct (block_shape r2) as (b1 & b2 & b3 & b4 & -> & Hb1 & Hb2 & Hb3 & Hb4).
  destruct (block_shape r3) as (c1 & c2 & c3 & c4 & -> & Hc1 & Hc2 & Hc3 & Hc4).
  destruct (block_shape r4) as (d1 & d2 & d3 & d4 & -> & Hd1 & Hd2 & Hd3 & Hd4).
  cbn [list_ascii_of_string app take drop length is_block forallb Nat.eqb].
  rewrite !bool_decide_eq_true_2 by done.
  unfold is_block. cbn [length forallb Nat.eqb].
  by rewrite Ha1, Ha2, Ha3, Ha4, Hb1, Hb2, Hb3, Hb4, Hc1, Hc2, Hc3, Hc4,
             Hd1, Hd2, Hd3, Hd4.
Qed.

(** X19.  The key holds twelve random characters, not sixteen: the text of a
    random number below 1 starts with the digit 0, which the filter keeps, so
    each of the four blocks starts with 0. *)
Theorem genLicenseKey_leading_zeros r1 r2 r3 r4 :
  let k := genLicenseKey (String "0" r1) (String "0" r2)
                         (String "0" r3) (String "0" r4) in
  String.get 4 k = Some "0"%char /\ String.get 9 k = Some "0"%char /\
  String.get 14 k = Some "0"%char /\ String.get 19 k = Some "0"%char.
Proof.
  unfold genLicenseKey.
  destruct (block_leading_zero r1) as (a2 & a3 & a4 & ->).
  destruct (block_leading_zero r2) as (b2 & b3 & b4 & ->).
  destruct (block_leading_zero r3) as (c2 & c3 & c4 & ->).
  destruct (block_leading_zero r4) as (d2 & d3 & d4 & ->).
  cbn. by split_and!.
Qed.

Lemma string_of_list_ascii_app l1 l2 :
  string_of_list_ascii (l1 ++ l2)
  = (string_of_list_ascii l1 ++ string_of_list_ascii l2)%string.
Proof. induction l1 as [| c l1 IH]; [done |]. cbn. by rewrite IH. Qed.

Lemma length_string_of_list_ascii l :
  String.length (string_of_list_ascii l) = length l.
Proof. induction l as [| c l IH]; [done |]. cbn. by rewrite IH. Qed.

Lemma length_list_ascii_of_string s :
  length (list_ascii_of_string s) = String.length s.
Proof. induction s as [| c s IH]; [done |]. cbn. by rewrite IH. Qed.

Lemma length_slice i j l :
  length (slice i j l) = Nat.min (j - i) (length l - i).
Proof. unfold slice. by rewrite length_take, length_drop. Qed.

(** X20.  An id is the prefix, an underscore and a random part of at most
    twelve characters; the random part has all twelve only when the two
    random texts are at least 10 and 6 characters long, and is empty when
    both texts have two characters or fewer. *)
Theorem genId_shape prefix r1 r2 :
  exists suffix,
    genId prefix r1 r2 = (prefix ++ "_" ++ suffix)%string /\
    String.length suffix
    = (Nat.min 8 (String.length r1 - 2) + Nat.min 4 (String.length r2 - 2))%nat /\
    (String.length suffix <= 12)%nat.
Proof.
  exists (string_of_list_ascii
            (slice 2 10 (list_ascii_of_string r1)
               ++ slice 2 6 (list_ascii_of_string r2))).
  assert (Hlen : String.length
                   (string_of_list_ascii
                      (slice 2 10 (list_ascii_of_string r1)
                         ++ slice 2 6 (list_ascii_of_string r2)))
                 = (Nat.min 8 (String.length r1 - 2)
                    + Nat.min 4 (String.length r2 - 2))%nat).
  { rewrite length_string_of_list_ascii, length_app, !length_slice,
      !length_list_ascii_of_string. done. }
  split_and!.
  - unfold genId.
    rewrite !string_of_list_ascii_app, string_of_list_ascii_of_string.
    by rewrite <- string_of_list_ascii_app.
  - done.
  - rewrite Hlen. lia.
Qed.

End Generators.

(** ** The admin check and the start of the server *)

(** What a request that is neither a renewal nor a ban request keeps of a
    stored record. *)
Lemma handle_keeps r now d k c :
  is_renew r = false -> is_ban r = false ->
  readData d !! k = Some c ->
  exists c', readData (handle r now d).2 !! k = Some c' /\ same_identity c c' /\
             expiresAt c' = expiresAt c /\
             (status c = banned -> status c' = banned).
Proof.
  intros Hrenew Hban Hk.
  destruct (handle_changes r now d)
    as [-> | [(cn & _ & _ & _ & ->)
             | (i & c0 & c' & Hi & Hcc & Hexp & _ & Hst & ->)]].
  - exists c. by split_and!.
  - exists c. split_and!; try done. cbn [readData]. by apply lookup_app_l_Some.
  - cbn [readData].
    destruct (lookup_insert_cases _ i c0 c' k c Hi Hk)
      as [(-> & -> & Hl) | (Hne & Hl)].
    + exists c'. split_and!; [done | by destruct Hcc | by apply Hexp | by apply Hst].
    + exists c. by split_and!.
Qed.

Lemma license_route_length r now d :
  Admin.behind_admin r = false ->
  length (readData (handle r now d).2) = length (readData d).
Proof.
  destruct r; [done.. | |]; intros _; cbn [handle];
    unfold activate, verify;
    repeat case_match; cbn [snd readData writeData];
    by rewrite ?length_insert.
Qed.

(** X21.  Without the admin password nothing privileged happens: when the
    [x-admin-auth] header is absent or differs from the password, the
    customer routes answer 401 and write nothing, and whatever the request,
    no record is added and every stored record keeps its identity fields, its
    expiry and, if it is banned, its ban. *)
Theorem without_password_nothing_privileged env hdr r now d :
  hdr <> Some (Admin.ADMIN_PASSWORD env) ->
  let out := Admin.app env hdr r now d in
  (Admin.behind_admin r = true -> out = (Admin.Unauthorized, d)) /\
  length (readData out.2) = length (readData d) /\
  forall k c,
    readData d !! k = Some c ->
    exists c', readData out.2 !! k = Some c' /\ same_identity c c' /\
               expiresAt c' = expiresAt c /\
               (status c = banned -> status c' = banned).
Proof.
  intros Hhdr out.
  assert (Hguard : forall next,
             Admin.requireAdmin env hdr next d = (Admin.Unauthorized, d)).
  { intros next. unfold Admin.requireAdmin. destruct hdr as [h |]; [| done].
    destruct (JS.truthy_str h); [| done]. cbn [negb orb].
    rewrite bool_decide_eq_false_2; [done | congruence]. }
  destruct (Admin.behind_admin r) eqn:Hroute.
  - assert (Hout : out = (Admin.Unauthorized, d)).
    { subst out. destruct r; try done; unfold Admin.app; apply Hguard. }
    rewrite Hout. split_and!; [done | done |].
    intros k c Hk. exists c. by split_and!.
  - assert (Hout : out.2 = (handle r now d).2).
    { subst out. destruct r; try done; unfold Admin.app;
        by destruct (handle _ now d). }
    rewrite Hout. split_and!; [done | by apply license_route_length |].
    intros k c Hk. apply handle_keeps; [by destruct r.. | done].
Qed.

Lemma without_password_nothing_privileged_witness :
  Admin.app (Some "s3cret"%string) (Some "admin123"%string)
            (Renew "cust_k3x9q2m1ab4z" (Some (JNum 12))) (steady 1700000200000)
            (Stored [used_license])
  = (Admin.Unauthorized, Stored [used_license]).
Proof.
  destruct (without_password_nothing_privileged (Some "s3cret"%string)
              (Some "admin123"%string)
              (Renew "cust_k3x9q2m1ab4z" (Some (JNum 12)))
              (steady 1700000200000)
              (Stored [used_license])) as [Hguard _].
  - discriminate.
  - apply Hguard. reflexivity.
Defined.

(** X22.  With the password in the header a customer route is the handler
    itself, and the license routes are the handlers whatever the header. *)
Theorem with_password_handler_runs env hdr r now d :
  hdr = Some (Admin.ADMIN_PASSWORD env) \/ Admin.behind_admin r = false ->
  Admin.app env hdr r now d
  = (Admin.Passed (handle r now d).1, (handle r now d).2).
Proof.
  assert (Hpw : JS.truthy_str (Admin.ADMIN_PASSWORD env) = true).
  { unfold Admin.ADMIN_PASSWORD. destruct env as [s |]; [| done].
    by destruct (JS.truthy_str s) eqn:Hs. }
  intros [-> | Hroute].
  - destruct r; unfold Admin.app, Admin.requireAdmin;
      rewrite ?Hpw, ?bool_decide_eq_true_2 by done; cbn [negb orb];
      by destruct (handle _ now d).
  - destruct r; try done; unfold Admin.app; by destruct (handle _ now d).
Qed.

Lemma with_password_handler_runs_witness :
  Admin.app None (Some "admin123"%string) ListCustomers (steady 1700000200000)
            (Stored [used_license])
  = (Admin.Passed (OkCustomers [used_license]), Stored [used_license]).
Proof.
  apply (with_password_handler_runs None (Some "admin123"%string) ListCustomers
           (steady 1700000200000) (Stored [used_license])).
  left. reflexivity.
Defined.

(** X23.  The data file, once created at the start, is never removed: after
    [startup] and any sequence of requests the file exists; and [startup]
    creates the empty collection only when there is no file, leaving a file
    that is there as it is, readable or not. *)
Theorem file_exists_after_startup rs d :
  (serve rs (startup d)).2 <> Missing /\
  readData (startup d) = readData d /\
  startup d = match d with Missing => Stored [] | Corrupt | Stored _ => d end.
Proof.
  split_and!; [| by destruct d | by destruct d].
  assert (Hstart : startup d <> Missing) by (by destruct d).
  revert Hstart. generalize (startup d). clear d.
  induction rs as [| [r now] rest IH]; intros d Hd; [done |].
  rewrite serve_cons. apply IH.
  destruct (handle_changes r now d)
    as [-> | [(c & _ & _ & _ & ->) | (i & c & c' & _ & _ & _ & _ & _ & ->)]];
    done.
Qed.
